(** * Gastronome's Gateway: order placement and data access

    A shallow embedding of the order model (schema defaults and validators,
    the [pre('save')] hook that adjusts dish inventory and computes the total
    price), of the [DataAccess] helpers and of the auth controller.

    Modelling conventions.
    - A count (a quantity, an inventory) and a time value are integers of
      [Z].  A price and a total are JavaScript Numbers: IEEE 754 binary64
      values, added and multiplied with rounding to nearest, ties to even
      (the two zeros are not told apart; they compare equal in JavaScript).
    - A [Date] is its time value: milliseconds since the epoch.  Local time
      is UTC shifted by the offset the time zone has at that moment
      ([LocalTZA]), and time values stay inside the range where [TimeClip]
      is the identity.
    - A Mongo [ObjectId] is a number of [N]; a collection is a finite map
      from identifiers to documents.
    - The callbacks that [Promise.all] runs are tasks suspended at their
      [await] points; a schedule lists which task is resumed next, so every
      interleaving of the database reads and writes is a schedule. *)

From Stdlib Require Import ZArith Lia List Bool.
From stdpp Require Import gmap strings list fin_maps.
Import ListNotations.

Local Open Scope Z_scope.

(** ** Numbers *)

(** A binary64 value: [Finite m e] is [m * 2^e]; results of the operations
    are normal, that is [2^52 <= |m| < 2^53] and [-1074 <= e <= 971], or
    [|m| < 2^52] and [e = -1074]. *)
Inductive Number :=
| Finite (m e : Z)
| Infinity (negative : bool)
| NaN.

Definition zero : Number := Finite 0 (-1074).

(** [m / 2^s] rounded to the nearest integer, a tie to the even one. *)
Definition round_shift (m s : Z) : Z :=
  let q := m / 2 ^ s in
  let r := m mod 2 ^ s in
  let half := 2 ^ (s - 1) in
  if r <? half then q
  else if half <? r then q + 1
  else if Z.even q then q else q + 1.

(** The binary64 value nearest to [m * 2^e]. *)
Definition rnd (m e : Z) : Number :=
  if m =? 0 then zero
  else
    let n := Z.log2 (Z.abs m) + 1 in
    let e' := Z.max (e + n - 53) (-1074) in
    let m' := if e' <=? e then m * 2 ^ (e - e') else round_shift m (e' - e) in
    let m'' := if Z.abs m' =? 2 ^ 53 then m' / 2 else m' in
    let e'' := if Z.abs m' =? 2 ^ 53 then e' + 1 else e' in
    if 971 <? e'' then Infinity (m <? 0)
    else if m'' =? 0 then zero
    else Finite m'' e''.

(** [x + y] and [x * y] on Numbers. *)
Definition fadd (x y : Number) : Number :=
  match x with
  | NaN => NaN
  | Infinity a =>
      match y with
      | NaN => NaN
      | Infinity b => if Bool.eqb a b then Infinity a else NaN
      | Finite _ _ => Infinity a
      end
  | Finite m1 e1 =>
      match y with
      | NaN => NaN
      | Infinity b => Infinity b
      | Finite m2 e2 =>
          let e := Z.min e1 e2 in
          rnd (m1 * 2 ^ (e1 - e) + m2 * 2 ^ (e2 - e)) e
      end
  end.

Definition fmul (x y : Number) : Number :=
  match x with
  | NaN => NaN
  | Infinity a =>
      match y with
      | NaN => NaN
      | Infinity b => Infinity (xorb a b)
      | Finite m2 _ => if m2 =? 0 then NaN else Infinity (xorb a (m2 <? 0))
      end
  | Finite m1 e1 =>
      match y with
      | NaN => NaN
      | Infinity b => if m1 =? 0 then NaN else Infinity (xorb b (m1 <? 0))
      | Finite m2 e2 => rnd (m1 * m2) (e1 + e2)
      end
  end.

(** The Number an integer literal or an integer count denotes. *)
Definition of_Z (z : Z) : Number := rnd z 0.
Arguments of_Z : simpl never.

(** The integer a Number is, when it is one. *)
Definition integer_value (x : Number) : option Z :=
  match x with
  | Finite m e =>
      if 0 <=? e then Some (m * 2 ^ e)
      else if m mod 2 ^ (- e) =? 0 then Some (m / 2 ^ (- e))
      else None
  | _ => None
  end.

(** ** Dates *)

Definition msPerSecond : Z := 1000.
Definition msPerMinute : Z := 60 * msPerSecond.
Definition msPerHour : Z := 60 * msPerMinute.
Definition msPerDay : Z := 24 * msPerHour.

Definition Day (t : Z) : Z := t / msPerDay.
Definition HourFromTime (t : Z) : Z := (t / msPerHour) mod 24.
Definition MinFromTime (t : Z) : Z := (t / msPerMinute) mod 60.
Definition SecFromTime (t : Z) : Z := (t / msPerSecond) mod 60.
Definition msFromTime (t : Z) : Z := t mod msPerSecond.

Definition MakeTime (hour min sec ms : Z) : Z :=
  hour * msPerHour + min * msPerMinute + sec * msPerSecond + ms.
Definition MakeDate (day time : Z) : Z := day * msPerDay + time.

(** The time zone of the process.  [LocalTZA zone t true] is the offset of
    local time from UTC, in milliseconds, at the time value [t];
    [LocalTZA zone t false] is the offset in effect at the local time value
    [t], which at a clock change (a local time that occurs twice or not at
    all) is the offset before the change. *)
Record TimeZone := {
  LocalTZA : Z -> bool -> Z
}.

Definition LocalTime (zone : TimeZone) (t : Z) : Z := t + LocalTZA zone t true.
Definition UTC (zone : TimeZone) (t : Z) : Z := t - LocalTZA zone t false.

(** [d.getHours()], [d.setHours(h)], [d.getMinutes()], [d.setMinutes(m)] on
    the time value [d]; the setters return the new time value. *)
Definition getHours (zone : TimeZone) (d : Z) : Z := HourFromTime (LocalTime zone d).
Definition getMinutes (zone : TimeZone) (d : Z) : Z := MinFromTime (LocalTime zone d).

Definition setHours (zone : TimeZone) (d hour : Z) : Z :=
  let t := LocalTime zone d in
  UTC zone (MakeDate (Day t)
                     (MakeTime hour (MinFromTime t) (SecFromTime t) (msFromTime t))).

Definition setMinutes (zone : TimeZone) (d min : Z) : Z :=
  let t := LocalTime zone d in
  UTC zone (MakeDate (Day t)
                     (MakeTime (HourFromTime t) min (SecFromTime t) (msFromTime t))).

(** ** The order schema *)

Abbreviation ObjectId := N.

(** [orderScheduled.default]: [new Date()] with its local hour, then its
    local minute, moved on by one. *)
Definition orderScheduled_default (zone : TimeZone) (now : Z) : Z :=
  let now1 := setHours zone now (getHours zone now + 1) in
  let now2 := setMinutes zone now1 (getMinutes zone now1 + 1) in
  now2.

(** [orderScheduled.validate.validator]; [now1] and [now2] are what the two
    [new Date()] calls read. *)
Definition orderScheduled_validator (zone : TimeZone) (now1 now2 value : Z) : bool :=
  let oneHourLater := setHours zone now1 (getHours zone now1 + 1) in
  let sixHoursLater := setHours zone now2 (getHours zone now2 + 6) in
  (oneHourLater <=? value) && (value <=? sixHoursLater).

(** ** Documents *)

Record Dish := {
  name : string;
  price : Number;
  inventory : Z
}.

Definition set_inventory (v : Z) (d : Dish) : Dish :=
  {| name := name d; price := price d; inventory := v |}.

(** One element of [dishes]; [dish] is [None] when the reference is absent. *)
Record LineItem := {
  dish : option ObjectId;
  quantity : Z
}.

(** [location]; a path that is not there is [None]. *)
Record Location := {
  type : option string;
  coordinates : option (list Number);
  address : option string
}.

Record Order := {
  _id : ObjectId;
  user : option ObjectId;
  dishes : list LineItem;
  orderTime : Z;
  orderScheduled : Z;
  location : Location;
  isSelfCollection : bool;
  totalPrice : Number;
  isItDone : bool
}.

Definition set_totalPrice (v : Number) (o : Order) : Order :=
  {| _id := _id o; user := user o; dishes := dishes o; orderTime := orderTime o;
     orderScheduled := orderScheduled o; location := location o;
     isSelfCollection := isSelfCollection o; totalPrice := v;
     isItDone := isItDone o |}.

(** What a caller hands to [new Order(...)]: every path may be left out. *)
Record LineItemData := {
  d_dish : option ObjectId;
  d_quantity : option Z
}.

Record OrderData := {
  d_user : option ObjectId;
  d_dishes : list LineItemData;
  d_orderTime : option Z;
  d_orderScheduled : option Z;
  d_location_type : option string;
  d_coordinates : option (list Number);
  d_address : option string;
  d_isSelfCollection : option bool;
  d_totalPrice : option Number;
  d_isItDone : option bool
}.

(** Schema defaults: [quantity] 1, [orderTime] [Date.now], [orderScheduled]
    the function above, [location.type] ['Point'], [isSelfCollection] false,
    [totalPrice] 0, [isItDone] false; and the array [location.coordinates],
    like every array path, is empty when the data leaves it out. *)
Definition new_LineItem (d : LineItemData) : LineItem :=
  {| dish := d_dish d; quantity := default 1 (d_quantity d) |}.

Definition new_Order (zone : TimeZone) (now : Z) (id : ObjectId) (data : OrderData)
  : Order :=
  {| _id := id;
     user := d_user data;
     dishes := map new_LineItem (d_dishes data);
     orderTime := default now (d_orderTime data);
     orderScheduled := default (orderScheduled_default zone now) (d_orderScheduled data);
     location := {| type := Some (default "Point" (d_location_type data));
                    coordinates := Some (default [] (d_coordinates data));
                    address := d_address data |};
     isSelfCollection := default false (d_isSelfCollection data);
     totalPrice := default (of_Z 0) (d_totalPrice data);
     isItDone := default false (d_isItDone data) |}.

(** ** Schema validation *)

Inductive Path :=
| path_user
| path_dishes_dish (i : nat)
| path_orderScheduled
| path_location_type (value : string)
| path_location_coordinates
| path_location_address.

Definition validator_message (p : Path) : string :=
  match p with
  | path_user => "Order must belong to a user"
  | path_dishes_dish _ => "Order must contain at least one dish"
  | path_orderScheduled =>
      "Scheduled delivery time must be at least one hour from the current time"
  | path_location_type value =>
      String.append "`"
        (String.append value "` is not a valid enum value for path `location.type`.")
  | path_location_coordinates => "Path `location.coordinates` is required."
  | path_location_address => "Path `location.address` is required."
  end.

Definition is_absent {A} (o : option A) : bool :=
  match o with Some _ => false | None => true end.

(** The [required] validator of [dishes.$.dish], element by element. *)
Fixpoint validate_dishes (i : nat) (items : list LineItem) : list Path :=
  match items with
  | [] => []
  | item :: rest =>
      (if is_absent (dish item) then [path_dishes_dish i] else [])
        ++ validate_dishes (S i) rest
  end.

(** The [enum] validator of [location.type]; it passes a path that is not
    there. *)
Definition validate_type (t : option string) : list Path :=
  match t with
  | Some value => if String.eqb value "Point" then [] else [path_location_type value]
  | None => []
  end.

(** What the [required] validator refuses: for an array a path that is not
    there (an empty array passes), for a string a path that is not there or
    the empty string. *)
Definition required_array {A} (v : option (list A)) : bool := is_absent v.

Definition required_string (v : option string) : bool :=
  match v with
  | Some s => String.eqb s ""
  | None => true
  end.

(** All validators of the schema; the document is valid when no path fails.
    [quantity] has a type and a default and no validator. *)
Definition validate (zone : TimeZone) (now : Z) (o : Order) : list Path :=
  (if is_absent (user o) then [path_user] else [])
    ++ validate_dishes 0 (dishes o)
    ++ (if orderScheduled_validator zone now now (orderScheduled o)
        then [] else [path_orderScheduled])
    ++ validate_type (type (location o))
    ++ (if negb (isSelfCollection o) && required_array (coordinates (location o))
        then [path_location_coordinates] else [])
    ++ (if negb (isSelfCollection o) && required_string (address (location o))
        then [path_location_address] else []).

(** ** The [pre('save')] hook *)

Inductive HookError :=
| DishNotFound (id : option ObjectId)
| NotEnoughInventory (dishName : string).

(** One callback of [this.dishes.map(async item => ...)].  It is suspended
    at [await Dish.findById(item.dish)], or at [await dish.save(...)] holding
    its copy of the document it read with the inventory already decremented,
    or it has returned: through [return next(new Error(...))] or by running
    to its end. *)
Inductive Task :=
| AwaitFind (item : LineItem)
| AwaitSave (item : LineItem) (id : ObjectId) (doc : Dish)
| Bailed (e : HookError)
| Fulfilled (item : LineItem) (doc : Dish).

(** A call of [dish.save()]: which dish, the quantity taken, the inventory
    the saved copy holds. *)
Record SaveEvent := {
  saved_dish : ObjectId;
  saved_quantity : Z;
  saved_inventory : Z
}.

(** The state the callbacks share: the dish collection, the callbacks, the
    local [totalPrice], the calls of [next] so far ([None] is [next()]) and
    the calls of [dish.save()] so far. *)
Record Hook := {
  db : gmap ObjectId Dish;
  tasks : list Task;
  total : Number;
  calls : list (option HookError);
  saves : list SaveEvent
}.

Definition findById (m : gmap ObjectId Dish) (ref : option ObjectId)
  : option (ObjectId * Dish) :=
  match ref with
  | None => None
  | Some id => match m !! id with
               | Some d => Some (id, d)
               | None => None
               end
  end.

Definition call_next (e : option HookError) (h : Hook) : Hook :=
  {| db := db h; tasks := tasks h; total := total h;
     calls := calls h ++ [e]; saves := saves h |}.

(** [dish.save()] for the copy [doc] of dish [id], whose [inventory] was
    assigned [inventory - quantity]: the paths that changed are written to
    the stored document and the others are left as they are stored.  Only
    [inventory] can have changed, and it has not when the quantity is 0;
    then nothing is written.  (The stored document is there: nothing removes
    a dish.) *)
Definition Dish_save (id : ObjectId) (doc : Dish) (quantity : Z)
    (m : gmap ObjectId Dish) : gmap ObjectId Dish :=
  if quantity =? 0 then m else alter (set_inventory (inventory doc)) id m.

(** The callback runs from one [await] to the next one or to its return. *)
Definition resume (t : Task) (h : Hook) : Task * Hook :=
  match t with
  | AwaitFind item =>
      match findById (db h) (dish item) with
      | None =>
          (Bailed (DishNotFound (dish item)),
           call_next (Some (DishNotFound (dish item))) h)
      | Some (id, d) =>
          if inventory d <? quantity item
          then (Bailed (NotEnoughInventory (name d)),
                call_next (Some (NotEnoughInventory (name d))) h)
          else (AwaitSave item id (set_inventory (inventory d - quantity item) d), h)
      end
  | AwaitSave item id d =>
      (Fulfilled item d,
       {| db := Dish_save id d (quantity item) (db h);
          tasks := tasks h;
          total := fadd (total h) (fmul (price d) (of_Z (quantity item)));
          calls := calls h;
          saves := saves h ++ [{| saved_dish := id;
                                  saved_quantity := quantity item;
                                  saved_inventory := inventory d |}] |})
  | Bailed _ | Fulfilled _ _ => (t, h)
  end.

Definition set_task (i : nat) (t : Task) (h : Hook) : Hook :=
  {| db := db h; tasks := <[i := t]> (tasks h); total := total h;
     calls := calls h; saves := saves h |}.

(** The event loop resumes callback [i]. *)
Definition step (i : nat) (h : Hook) : Hook :=
  match tasks h !! i with
  | None => h
  | Some t => let '(t', h') := resume t h in set_task i t' h'
  end.

Definition run (sched : list nat) (h : Hook) : Hook :=
  fold_left (fun h i => step i h) sched h.

(** Every callback in turn, each from its start to its return. *)
Definition one_by_one (n : nat) : list nat :=
  flat_map (fun i => [i; i]) (seq 0 n).

(** Every callback up to its first [await], then every callback to its
    return: all the reads come before the first write. *)
Definition reads_then_writes (n : nat) : list nat := seq 0 n ++ seq 0 n.

Definition start (m : gmap ObjectId Dish) (items : list LineItem) : Hook :=
  {| db := m; tasks := map AwaitFind items; total := of_Z 0; calls := [];
     saves := [] |}.

(** [await Promise.all(...)]: the callbacks are resumed as [sched] says, and
    whatever is still pending after that runs to its return. *)
Definition promise_all (sched : list nat) (m : gmap ObjectId Dish)
    (items : list LineItem) : Hook :=
  let h := run sched (start m items) in
  run (one_by_one (length (tasks h))) h.

Definition returned (t : Task) : bool :=
  match t with
  | AwaitFind _ | AwaitSave _ _ _ => false
  | Bailed _ | Fulfilled _ _ => true
  end.

Definition fulfilled (t : Task) : bool :=
  match t with Fulfilled _ _ => true | _ => false end.

Definition bailed (t : Task) : bool :=
  match t with Bailed _ => true | _ => false end.

(** The hook itself.  [isNew] and [isModified_dishes] are the document's
    [this.isNew] and [this.isModified('dishes')]. *)
Definition pre_save (sched : list nat) (m : gmap ObjectId Dish)
    (isNew isModified_dishes : bool) (this : Order) : Hook * Order :=
  if isModified_dishes || isNew then
    let h := promise_all sched m (dishes this) in
    let totalPrice1 :=
      if negb (isSelfCollection this) then fadd (total h) (of_Z 30) else total h in
    (call_next None h, set_totalPrice totalPrice1 this)
  else
    (call_next None (start m []), this).

(** ** Saving an order *)

Record Store := {
  dishStore : gmap ObjectId Dish;
  orderStore : gmap ObjectId Order
}.

Inductive Outcome :=
| Saved (o : Order)
| ValidationFailed (paths : list Path)
| HookFailed (e : HookError).

(** [doc.save()]: validation runs before the hook; the first call of [next]
    decides whether the document is written. *)
Definition save (zone : TimeZone) (now : Z) (sched : list nat)
    (isNew isModified_dishes : bool) (this : Order) (s : Store) : Outcome * Store :=
  match validate zone now this with
  | (_ :: _) as paths => (ValidationFailed paths, s)
  | [] =>
      let '(h, this') := pre_save sched (dishStore s) isNew isModified_dishes this in
      match calls h with
      | Some e :: _ =>
          (HookFailed e, {| dishStore := db h; orderStore := orderStore s |})
      | _ =>
          (Saved this',
           {| dishStore := db h; orderStore := <[_id this' := this']> (orderStore s) |})
      end
  end.

(** [Order.create(data)]: build the document with its defaults, save it. *)
Definition Order_create (zone : TimeZone) (now : Z) (sched : list nat)
    (id : ObjectId) (data : OrderData) (s : Store) : Outcome * Store :=
  save zone now sched true false (new_Order zone now id data) s.

(** Orders saved one after another, each with its own clock reading,
    schedule, identifier and data. *)
Definition Order_create_all (zone : TimeZone)
    (reqs : list (Z * list nat * ObjectId * OrderData)) (s : Store) : Store :=
  fold_left
    (fun s '(now, sched, id, data) => snd (Order_create zone now sched id data s))
    reqs s.

(** ** Updating an order *)

(** The update document handed to [findByIdAndUpdate]: the paths it names. *)
Record OrderUpdate := {
  u_user : option ObjectId;
  u_dishes : option (list LineItem);
  u_orderScheduled : option Z;
  u_location : option Location;
  u_isSelfCollection : option bool;
  u_totalPrice : option Number;
  u_isItDone : option bool
}.

Definition apply_update (u : OrderUpdate) (o : Order) : Order :=
  {| _id := _id o;
     user := match u_user u with Some v => Some v | None => user o end;
     dishes := default (dishes o) (u_dishes u);
     orderTime := orderTime o;
     orderScheduled := default (orderScheduled o) (u_orderScheduled u);
     location := default (location o) (u_location u);
     isSelfCollection := default (isSelfCollection o) (u_isSelfCollection u);
     totalPrice := default (totalPrice o) (u_totalPrice u);
     isItDone := default (isItDone o) (u_isItDone u) |}.

(** [runValidators: true]: the validators of the paths the update names.
    An update that names [location] sets the whole of it, so the validators
    of the paths under [location] run on what the update gives for them;
    [this] is then the query and not a document, [this.isSelfCollection] is
    undefined, and the two [required] functions answer true. *)
Definition validate_update (zone : TimeZone) (now : Z) (u : OrderUpdate) : list Path :=
  match u_dishes u with
  | Some items => validate_dishes 0 items
  | None => []
  end
    ++ match u_orderScheduled u with
       | Some v => if orderScheduled_validator zone now now v
                   then [] else [path_orderScheduled]
       | None => []
       end
    ++ match u_location u with
       | Some l =>
           validate_type (type l)
             ++ (if required_array (coordinates l)
                 then [path_location_coordinates] else [])
             ++ (if required_string (address l)
                 then [path_location_address] else [])
       | None => []
       end.

Inductive Exn :=
| AppError (message : string) (statusCode : Z)
| ValidationError (paths : list Path)
| MissingSchemaError (modelName : string)
| ModelError (message : string).

Inductive Result (A : Type) :=
| Ok (a : A)
| Throw (e : Exn).
Arguments Ok {A} a.
Arguments Throw {A} e.

(** [Order.findByIdAndUpdate(id, updateData, { new: true, runValidators:
    true })]: one write of the order collection; no [save] hook runs.  The
    result is the updated document, or [None] (null) when there is none.
    (What the [find] hooks add to the query, a projection and the population
    of references, shapes the returned copy only and is left out.) *)
Definition Order_findByIdAndUpdate (zone : TimeZone) (now : Z) (id : ObjectId)
    (updateData : OrderUpdate) (s : Store) : Result (option Order) * Store :=
  match validate_update zone now updateData with
  | (_ :: _) as paths => (Throw (ValidationError paths), s)
  | [] =>
      match orderStore s !! id with
      | None => (Ok None, s)
      | Some o =>
          let o' := apply_update updateData o in
          (Ok (Some o'),
           {| dishStore := dishStore s; orderStore := <[id := o']> (orderStore s) |})
      end
  end.

(** ** DataAccess *)

(** [DataAccess.updateById] on the model whose [findByIdAndUpdate] is given. *)
Definition updateById {Upd Doc St : Type}
    (findByIdAndUpdate : ObjectId -> Upd -> St -> Result (option Doc) * St)
    (id : ObjectId) (updateData : Upd) (s : St) : Result Doc * St :=
  match findByIdAndUpdate id updateData s with
  | (Throw e, s') => (Throw e, s')
  | (Ok None, s') => (Throw (AppError "No document found with that ID" 404), s')
  | (Ok (Some document), s') => (Ok document, s')
  end.

(** JavaScript values a document path can hold. *)
Inductive JSValue :=
| JUndefined
| JNull
| JBoolean (b : bool)
| JNumber (n : Z)
| JString (s : string).

Definition ToBoolean (v : JSValue) : bool :=
  match v with
  | JUndefined | JNull => false
  | JBoolean b => b
  | JNumber n => negb (n =? 0)
  | JString s => negb (String.eqb s "")
  end.

(** Reading a property that is not there gives [undefined]. *)
Definition get (document : gmap string JSValue) (key : string) : JSValue :=
  default JUndefined (document !! key).

(** [DataAccess.create]; [models] is [mongoose.model], which throws for a
    name without a schema, and the model it returns is its [create]. *)
Definition create
    (models : string -> option (gmap string JSValue -> Result (gmap string JSValue)))
    (modelName : string) (data : gmap string JSValue)
  : Result (gmap string JSValue) :=
  match models modelName with
  | None => Throw (MissingSchemaError modelName)
  | Some Model_create =>
      match Model_create data with
      | Throw e => Throw e
      | Ok document =>
          if ToBoolean (get document "password")
          then Ok (<["password" := JUndefined]> document)
          else Ok document
      end
  end.

(** ** Predicates used by the statements *)

(** Every dish of the collection has a non-negative inventory. *)
Definition stock_ok (m : gmap ObjectId Dish) : Prop :=
  map_Forall (fun _ d => 0 <= inventory d) m.

(** The document a callback is about to write has a non-negative inventory. *)
Definition pending_ok (t : Task) : Prop :=
  match t with
  | AwaitSave _ _ d => 0 <= inventory d
  | _ => True
  end.

Fixpoint Zsum (l : list Z) : Z :=
  match l with
  | [] => 0
  | x :: l => x + Zsum l
  end.

(** The Number [dish.price * item.quantity] for one line item, the dish
    looked up in [m]. *)
Definition line_price (m : gmap ObjectId Dish) (item : LineItem) : Number :=
  match findById m (dish item) with
  | Some (_, d) => fmul (price d) (of_Z (quantity item))
  | None => of_Z 0
  end.

(** Numbers added one by one from 0, each addition rounded, as
    [totalPrice += ...] does. *)
Definition float_sum (l : list Number) : Number := fold_left fadd l (of_Z 0).
Arguments float_sum : simpl never.

(** An integer that binary64 holds exactly, as do its neighbours. *)
Definition safe_integer (z : Z) : Prop := Z.abs z < 2 ^ 53.

(** Every price of the collection is such an integer. *)
Definition integer_prices (m : gmap ObjectId Dish) : Prop :=
  map_Forall (fun _ d => exists p, price d = of_Z p /\ safe_integer p) m.

(** The integer [dish.price * quantity] of one line item, and over the line
    items the sum of these integers and the sum of their absolute values. *)
Definition line_amount (m : gmap ObjectId Dish) (item : LineItem) : Z :=
  match findById m (dish item) with
  | Some (_, d) => default 0 (integer_value (price d)) * quantity item
  | None => 0
  end.

Definition order_sum (m : gmap ObjectId Dish) (items : list LineItem) : Z :=
  Zsum (line_amount m <$> items).

Definition order_bound (m : gmap ObjectId Dish) (items : list LineItem) : Z :=
  Zsum (Z.abs <$> (line_amount m <$> items)).

(** The zone keeps the offset [tza] from [lo] to [hi]: at every time value
    in between, and at the local time of each. *)
Definition steady (zone : TimeZone) (tza lo hi : Z) : Prop :=
  forall t, lo <= t <= hi ->
            LocalTZA zone t true = tza /\ LocalTZA zone (t + tza) false = tza.

(** The line item a callback has reserved, and the call of [next] it has
    made. *)
Definition reserved (t : Task) : option LineItem :=
  match t with
  | Fulfilled item _ => Some item
  | _ => None
  end.

Definition reported (t : Task) : option (option HookError) :=
  match t with
  | Bailed e => Some (Some e)
  | _ => None
  end.

Definition event_item (e : SaveEvent) : LineItem :=
  {| dish := Some (saved_dish e); quantity := saved_quantity e |}.

(** Callback and line item belong together, and any document the callback
    holds carries the price the dish had in [m0]. *)
Definition task_for (m0 : gmap ObjectId Dish) (item : LineItem) (t : Task) : Prop :=
  match t with
  | AwaitFind it => it = item
  | AwaitSave it id d =>
      it = item /\ dish item = Some id /\ price <$> m0 !! id = Some (price d)
  | Fulfilled it d =>
      it = item /\ exists id, dish item = Some id /\ price <$> m0 !! id = Some (price d)
  | Bailed _ => True
  end.

(** The bookkeeping invariant of the hook started on [items] in [m0]; the
    total is the sum, in the order of the calls of [dish.save()], of what
    the callbacks past that call have added. *)
Record hook_inv (m0 : gmap ObjectId Dish) (items : list LineItem) (h : Hook) : Prop := {
  inv_tasks : Forall2 (task_for m0) items (tasks h);
  inv_prices : forall id, price <$> db h !! id = price <$> m0 !! id;
  inv_total : total h = float_sum (line_price m0 <$> (event_item <$> saves h));
  inv_calls : calls h ≡ₚ omap reported (tasks h);
  inv_saves : event_item <$> saves h ≡ₚ omap reserved (tasks h)
}.

(** Callback [j] has returned. *)
Definition done_at (j : nat) (h : Hook) : Prop :=
  exists t, tasks h !! j = Some t /\ returned t = true.

(** What the callback of [item] does when it runs alone on [m0]: [Some (id,
    d)] when it writes document [d] for dish [id], [None] when it calls
    [next] with an error. *)
Definition reservation (m0 : gmap ObjectId Dish) (item : LineItem)
  : option (ObjectId * Dish) :=
  match findById m0 (dish item) with
  | Some (id, d) =>
      if inventory d <? quantity item then None
      else Some (id, set_inventory (inventory d - quantity item) d)
  | None => None
  end.

(** Where the callback of [item] stands when no other callback touches its
    dish: [m0] is the collection at the start, [m] the collection now. *)
Definition task_state (m0 m : gmap ObjectId Dish) (item : LineItem) (t : Task) : Prop :=
  match t with
  | AwaitFind it =>
      it = item /\ findById m (dish item) = findById m0 (dish item)
  | AwaitSave it id d =>
      it = item /\ findById m (dish item) = findById m0 (dish item)
      /\ reservation m0 item = Some (id, d)
  | Fulfilled it d =>
      it = item /\ exists id, reservation m0 item = Some (id, d) /\ m !! id = Some d
  | Bailed e =>
      findById m (dish item) = findById m0 (dish item) /\ reservation m0 item = None
  end.

Record distinct_inv (m0 : gmap ObjectId Dish) (items : list LineItem) (h : Hook)
  : Prop := {
  dinv_tasks : forall j item t,
      items !! j = Some item -> tasks h !! j = Some t ->
      task_state m0 (db h) item t;
  dinv_length : length (tasks h) = length items;
  dinv_frame : forall id, Some id ∉ dish <$> items -> db h !! id = m0 !! id
}.

(** The error the callback of [item] hands to [next] when it fails on [m]. *)
Definition failure (m : gmap ObjectId Dish) (item : LineItem) : HookError :=
  match findById m (dish item) with
  | Some (_, d) => NotEnoughInventory (name d)
  | None => DishNotFound (dish item)
  end.

Fixpoint count (p : Task -> bool) (ts : list Task) : nat :=
  match ts with
  | [] => 0
  | t :: ts => (if p t then 1 else 0) + count p ts
  end.

(** A reservation attempt of one unit of dish [id]. *)
Definition one_unit (id : ObjectId) : LineItem :=
  {| dish := Some id; quantity := 1 |}.

(** The same order with every quantity replaced by [f] of it. *)
Definition map_quantities (f : Z -> Z) (o : Order) : Order :=
  {| _id := _id o; user := user o;
     dishes := map (fun item => {| dish := dish item; quantity := f (quantity item) |})
                   (dishes o);
     orderTime := orderTime o; orderScheduled := orderScheduled o;
     location := location o; isSelfCollection := isSelfCollection o;
     totalPrice := totalPrice o; isItDone := isItDone o |}.

(** ** Sample data *)

(** A zone without clock changes, [tza] milliseconds ahead of UTC; UTC
    itself; and New York around the end of daylight saving time in 2024: at
    06:00 UTC on 3 November the offset goes from -4 hours to -5 hours, and the
    local hour from 01:00 to 02:00 occurs twice. *)
Definition fixed_offset (tza : Z) : TimeZone := {| LocalTZA := fun _ _ => tza |}.

Definition utc : TimeZone := fixed_offset 0.

Definition clocks_go_back : Z := 1730613600000.

Definition new_york : TimeZone :=
  {| LocalTZA := fun t isUTC =>
       if isUTC
       then if t <? clocks_go_back then -4 * msPerHour else -5 * msPerHour
       else if t <? clocks_go_back - 4 * msPerHour
            then -4 * msPerHour else -5 * msPerHour |}.

Definition dish_A : ObjectId := 1%N.
Definition dish_B : ObjectId := 2%N.

Definition menu : gmap ObjectId Dish :=
  <[dish_A := {| name := "A"; price := of_Z 10; inventory := 10 |}]>
    (<[dish_B := {| name := "B"; price := of_Z 5; inventory := 5 |}]> ∅).

(** Dish A with a single unit left. *)
Definition last_unit : gmap ObjectId Dish :=
  <[dish_A := {| name := "A"; price := of_Z 10; inventory := 1 |}]> ∅.

Definition shop : Store := {| dishStore := menu; orderStore := ∅ |}.

(** Dish A at the price 9007199254740991, which is [2^53 - 1]. *)
Definition dear_menu : gmap ObjectId Dish :=
  <[dish_A := {| name := "A"; price := of_Z 9007199254740991; inventory := 10 |}]> ∅.

(** Three dishes at the prices 0.1, 0.2 and 0.3: the Numbers these decimal
    literals denote. *)
Definition decimal_menu : gmap ObjectId Dish :=
  <[1%N := {| name := "A"; price := Finite 7205759403792794 (-56); inventory := 10 |}]>
    (<[2%N := {| name := "B"; price := Finite 7205759403792794 (-55);
                inventory := 10 |}]>
       (<[3%N := {| name := "C"; price := Finite 5404319552844595 (-54);
                   inventory := 10 |}]> ∅)).

Definition line (id : ObjectId) (q : Z) : LineItemData :=
  {| d_dish := Some id; d_quantity := Some q |}.

(** A request of user 7 with no scheduled time, for delivery or for
    self-collection. *)
Definition request (items : list LineItemData) (selfCollection : bool) : OrderData :=
  {| d_user := Some 7%N;
     d_dishes := items;
     d_orderTime := None;
     d_orderScheduled := None;
     d_location_type := None;
     d_coordinates := if selfCollection then None else Some [of_Z 34; of_Z 32];
     d_address := if selfCollection then None else Some "1 Main St";
     d_isSelfCollection := Some selfCollection;
     d_totalPrice := None;
     d_isItDone := None |}.

(** The update documents [{ totalPrice: 0 }] and [{ isItDone: true }]. *)
Definition update_totalPrice_0 : OrderUpdate :=
  {| u_user := None; u_dishes := None; u_orderScheduled := None; u_location := None;
     u_isSelfCollection := None; u_totalPrice := Some (of_Z 0);
     u_isItDone := None |}.

Definition update_isItDone : OrderUpdate :=
  {| u_user := None; u_dishes := None; u_orderScheduled := None; u_location := None;
     u_isSelfCollection := None; u_totalPrice := None; u_isItDone := Some true |}.

(** A registry with one model, [User], whose [create] stores the data as
    given. *)
Definition plain_models (modelName : string)
  : option (gmap string JSValue -> Result (gmap string JSValue)) :=
  if String.eqb modelName "User" then Some (fun data => Ok data) else None.

(** ** Further predicates on the hook *)

(** Every dish of [m0] is still in the collection of [h], related to its
    old document by [R]; no dish has appeared; and every document about to be
    written is [R]-related to the old document of its dish. *)
Definition based_on (R : Dish -> Dish -> Prop) (m0 : gmap ObjectId Dish) (h : Hook)
  : Prop :=
  (forall id, m0 !! id = None -> db h !! id = None)
  /\ (forall id d0, m0 !! id = Some d0 -> exists d, db h !! id = Some d /\ R d0 d)
  /\ Forall (fun t => match t with
                      | AwaitSave _ id d => exists d0, m0 !! id = Some d0 /\ R d0 d
                      | _ => True
                      end) (tasks h).

(** The line item a pending callback works on satisfies [Q]. *)
Definition asks (Q : LineItem -> Prop) (t : Task) : Prop :=
  match t with
  | AwaitFind item | AwaitSave item _ _ => Q item
  | _ => True
  end.

Definition same_entry (d0 d : Dish) : Prop :=
  name d = name d0 /\ price d = price d0.

Definition not_raised (d0 d : Dish) : Prop := inventory d <= inventory d0.

(** The callback of a line item whose dish is not in [m0] is still waiting
    for its lookup or has bailed out. *)
Definition unknown_dish_task (m0 : gmap ObjectId Dish) (item : LineItem) (t : Task)
  : Prop :=
  findById m0 (dish item) = None -> t = AwaitFind item \/ exists e, t = Bailed e.

(** The units the writes [sv] have taken from dish [id]. *)
Fixpoint taken (id : ObjectId) (sv : list SaveEvent) : Z :=
  match sv with
  | [] => 0
  | e :: sv => (if N.eqb (saved_dish e) id then saved_quantity e else 0) + taken id sv
  end.

(** The inventory of dish [id] in [m], 0 when there is no such dish. *)
Definition stock (m : gmap ObjectId Dish) (id : ObjectId) : Z :=
  match m !! id with
  | Some d => inventory d
  | None => 0
  end.

(** The request [data] with [totalPrice] set by the caller. *)
Definition with_totalPrice (v : option Number) (data : OrderData) : OrderData :=
  {| d_user := d_user data; d_dishes := d_dishes data;
     d_orderTime := d_orderTime data; d_orderScheduled := d_orderScheduled data;
     d_location_type := d_location_type data;
     d_coordinates := d_coordinates data; d_address := d_address data;
     d_isSelfCollection := d_isSelfCollection data;
     d_totalPrice := v; d_isItDone := d_isItDone data |}.

(** ** More of DataAccess *)

Module DataAccess.

(** [new DataAccess()]: [this] is the object under construction and
    [instance] the static [DataAccess.instance]; the result is what the
    constructor returns and the static afterwards. *)
Definition new (this : N) (instance : option N) : N * option N :=
  let instance' := if is_absent instance then Some this else instance in
  (default this instance', instance').

(** Constructions one after another; they return the objects listed. *)
Fixpoint new_all (objects : list N) (instance : option N) : list N * option N :=
  match objects with
  | [] => ([], instance)
  | this :: rest =>
      let '(r, instance') := new this instance in
      let '(rs, instance'') := new_all rest instance' in
      (r :: rs, instance'')
  end.

(** [saveDocument]'s argument: nothing, an object without a [save]
    function, or an object whose [save] takes the options and either fails
    with some error or gives the saved document. *)
Inductive Document (Opt E D St : Type) :=
| NoDocument
| NoSave
| Savable (save : Opt -> St -> (E + D) * St).
Arguments NoDocument {Opt E D St}.
Arguments NoSave {Opt E D St}.
Arguments Savable {Opt E D St} save.

Definition saveDocument {Opt E D St : Type} (document : Document Opt E D St)
    (options : Opt) (s : St) : Result D * St :=
  match document with
  | NoDocument | NoSave =>
      (Throw (AppError "Invalid document or document does not have a save method" 400), s)
  | Savable save =>
      match save options s with
      | (inr savedDocument, s') => (Ok savedDocument, s')
      | (inl _, s') => (Throw (AppError "Failed to save the document" 500), s')
      end
  end.

(** [Model_findById id populateOptions] is the query [Model.findById(id)],
    populated when options are given, and run. *)
Definition findById {Id Pop Doc St : Type}
    (Model_findById : Id -> option Pop -> St -> Result (option Doc) * St)
    (id : Id) (populateOptions : option Pop) (s : St) : Result (option Doc) * St :=
  match Model_findById id populateOptions s with
  | (Throw e, s') => (Throw e, s')
  | (Ok document, s') =>
      if is_absent document
      then (Throw (AppError "No document found with that ID" 404), s')
      else (Ok document, s')
  end.

(** The class defines no [findByEmail], and its one instance is frozen when
    the module exports it: [dataAccess.findByEmail] is undefined, and calling
    it throws. *)
Definition findByEmail {Email Doc : Type} (modelName : string) (email : Email)
  : Result Doc :=
  Throw (ModelError "TypeError: dataAccess.findByEmail is not a function").

Definition deleteById {Id Doc St : Type}
    (Model_findByIdAndDelete : Id -> St -> Result (option Doc) * St)
    (id : Id) (s : St) : Result unit * St :=
  match Model_findByIdAndDelete id s with
  | (Throw e, s') => (Throw e, s')
  | (Ok document, s') =>
      if is_absent document
      then (Throw (AppError "No document found with that ID" 404), s')
      else (Ok tt, s')
  end.

End DataAccess.

(** The order model's queries.  [shape] is what the [find] hooks (the
    projection, the population of references) and the populate options make
    of a stored order before it is returned. *)
Definition Order_findById {Pop View : Type} (shape : option Pop -> Order -> View)
    (id : ObjectId) (populateOptions : option Pop) (s : Store)
  : Result (option View) * Store :=
  (Ok (shape populateOptions <$> orderStore s !! id), s).

Definition Order_findByIdAndDelete {View : Type} (shape : Order -> View)
    (id : ObjectId) (s : Store) : Result (option View) * Store :=
  (Ok (shape <$> orderStore s !! id),
   {| dishStore := dishStore s; orderStore := delete id (orderStore s) |}).

(** An order document as [saveDocument] sees it: its [save] fails with the
    validation paths or with the hook's error. *)
Definition Order_document (zone : TimeZone) (now : Z) (sched : list nat)
    (isNew isModified_dishes : bool) (this : Order)
  : DataAccess.Document unit (list Path + HookError) Order Store :=
  DataAccess.Savable (fun _ s =>
    match save zone now sched isNew isModified_dishes this s with
    | (Saved o, s') => (inr o, s')
    | (ValidationFailed paths, s') => (inl (inl paths), s')
    | (HookFailed e, s') => (inl (inr e), s')
    end).

(** ** The auth controller *)

(** What a middleware or handler sees of the exchange: the [Authorization]
    header, the [jwt] cookie, the body, [req.user] (unset, null or a user) and
    [res.locals.user]. *)
Record Request := {
  authorization : option string;
  cookies_jwt : option string;
  body : gmap string JSValue;
  req_user : option (option (gmap string JSValue));
  res_locals_user : option (gmap string JSValue)
}.

Definition set_req_user (u : option (gmap string JSValue)) (req : Request) : Request :=
  {| authorization := authorization req; cookies_jwt := cookies_jwt req;
     body := body req; req_user := Some u; res_locals_user := res_locals_user req |}.

Definition set_res_locals_user (u : gmap string JSValue) (req : Request) : Request :=
  {| authorization := authorization req; cookies_jwt := cookies_jwt req;
     body := body req; req_user := req_user req; res_locals_user := Some u |}.

Record Cookie := {
  cookie_name : string;
  cookie_value : string;
  cookie_expires : Z;
  cookie_httpOnly : bool;
  cookie_secure : bool
}.

(** The response: the cookie set, the status and the JSON body's [status],
    [token], [data.user] and [message]. *)
Record Response := {
  res_cookie : option Cookie;
  res_status : Z;
  json_status : string;
  json_token : option string;
  json_user : option (gmap string JSValue);
  json_message : option string
}.

(** How a middleware ends: [next()], [next(err)], a thrown error or a
    rejected promise, or a response. *)
Inductive Flow :=
| NextOk (req : Request)
| NextErr (e : Exn)
| Rejected (e : Exn)
| Responded (res : Response).

(** [s.split(sep)] for a one-character separator. *)
Fixpoint split (sep : Ascii.ascii) (s : string) : list string :=
  match s with
  | String.EmptyString => [String.EmptyString]
  | String.String c rest =>
      if Ascii.eqb c sep then String.EmptyString :: split sep rest
      else match split sep rest with
           | [] => [String.String c String.EmptyString]
           | w :: ws => String.String c w :: ws
           end
  end.

Definition startsWith (s p : string) : bool := String.prefix p s.

Fixpoint has_char (c : Ascii.ascii) (s : string) : bool :=
  match s with
  | String.EmptyString => false
  | String.String c' rest => Ascii.eqb c' c || has_char c rest
  end.

(** The space character. *)
Definition space : Ascii.ascii := Ascii.ascii_of_nat 32.

(** Truthiness of a string or undefined. *)
Definition truthy (o : option string) : bool :=
  match o with
  | Some s => negb (String.eqb s "")
  | None => false
  end.

(** The token [protect] settles on: from a [Bearer] header, else from the
    cookie, else undefined. *)
Definition protect_token (req : Request) : option string :=
  if truthy (authorization req)
     && startsWith (default String.EmptyString (authorization req)) "Bearer"
  then split space (default String.EmptyString (authorization req)) !! 1%nat
  else if truthy (cookies_jwt req) then cookies_jwt req
  else None.

Record Decoded := {
  decoded_id : JSValue;
  iat : Z
}.

(** What the controller takes from elsewhere: [jwt.verify] and [jwt.sign]
    with the configured secret and expiry, the user model's [findById] and
    [changedPasswordAfter], the node environment, the cookie lifetime in
    days, and the clock. *)
Record AuthEnv := {
  verify : option string -> Result Decoded;
  signToken : JSValue -> string;
  User_findById : JSValue -> Result (option (gmap string JSValue));
  changedPasswordAfter : gmap string JSValue -> Z -> bool;
  nodeEnv : string;
  jwtCookieExpiresIn : Z;
  Date_now : Z
}.

(** [dataAccess.findById(userModel, id)]. *)
Definition find_user (env : AuthEnv) (id : JSValue)
  : Result (option (gmap string JSValue)) :=
  fst (DataAccess.findById (Pop := unit)
         (fun id _ (st : unit) => (User_findById env id, st)) id None tt).

Definition protect (env : AuthEnv) (req : Request) : Flow :=
  let token := protect_token req in
  if negb (truthy token) then
    NextErr (AppError "You are not logged in! Please log in to get access." 401)
  else
    match verify env token with
    | Throw e => Rejected e
    | Ok decoded =>
        match find_user env (decoded_id decoded) with
        | Throw e => Rejected e
        | Ok None =>
            NextErr (AppError "The user belonging to this token does no longer exist."
                              401)
        | Ok (Some currentUser) =>
            if changedPasswordAfter env currentUser (iat decoded)
            then NextErr (AppError "User recently changed password! Please log in again."
                                   401)
            else NextOk (set_req_user (Some currentUser) req)
        end
    end.

Definition conditionalProtect (env : AuthEnv) (req : Request) : Flow :=
  if truthy (authorization req)
     && startsWith (default String.EmptyString (authorization req)) "Bearer"
  then
    let token := split space (default String.EmptyString (authorization req)) !! 1%nat in
    match verify env token with
    | Throw _ => NextOk (set_req_user None req)
    | Ok decoded =>
        match find_user env (decoded_id decoded) with
        | Throw _ => NextOk (set_req_user None req)
        | Ok currentUser => NextOk (set_req_user currentUser req)
        end
    end
  else NextOk req.

Definition isLoggedIn (env : AuthEnv) (req : Request) : Flow :=
  if truthy (cookies_jwt req) then
    match verify env (cookies_jwt req) with
    | Throw _ => NextOk req
    | Ok decoded =>
        match find_user env (decoded_id decoded) with
        | Throw _ => NextOk req
        | Ok None => NextOk req
        | Ok (Some currentUser) =>
            if changedPasswordAfter env currentUser (iat decoded)
            then NextOk req
            else NextOk (set_res_locals_user currentUser req)
        end
    end
  else NextOk req.

(** [roles.includes(req.user.role)] for roles given as strings. *)
Definition includes (roles : list string) (v : JSValue) : bool :=
  match v with
  | JString r => existsb (String.eqb r) roles
  | _ => false
  end.

Definition restrictTo (roles : list string) (req : Request) : Flow :=
  match req_user req with
  | Some (Some u) =>
      if negb (includes roles (get u "role"))
      then NextErr (AppError "You do not have permission to perform this action" 403)
      else NextOk req
  | _ => Rejected (ModelError "TypeError: Cannot read properties of undefined")
  end.

(** One middleware after another, as a route lists them. *)
Definition and_then (first second : Request -> Flow) (req : Request) : Flow :=
  match first req with
  | NextOk req' => second req'
  | other => other
  end.

Definition createSendToken (env : AuthEnv) (u : gmap string JSValue)
    (statusCode : Z) : Response :=
  let token := signToken env (get u "_id") in
  {| res_cookie :=
       Some {| cookie_name := "jwt"; cookie_value := token;
               cookie_expires :=
                 Date_now env + jwtCookieExpiresIn env * 24 * 60 * 60 * 1000;
               cookie_httpOnly := true;
               cookie_secure := String.eqb (nodeEnv env) "production" |};
     res_status := statusCode;
     json_status := "success";
     json_token := Some token;
     json_user := Some (<["password" := JUndefined]> u);
     json_message := None |}.

(** The object literal [signup] hands to [create]. *)
Definition signup_data (b : gmap string JSValue) : gmap string JSValue :=
  <["name" := get b "name"]>
    (<["email" := get b "email"]>
       (<["password" := get b "password"]>
          (<["passwordConfirm" := get b "passwordConfirm"]> ∅))).

Definition signup
    (models : string -> option (gmap string JSValue -> Result (gmap string JSValue)))
    (env : AuthEnv) (req : Request) : Flow :=
  match create models "User" (signup_data (body req)) with
  | Throw e => Rejected e
  | Ok newUser => Responded (createSendToken env newUser 201)
  end.

(** [login]; [findByEmail] and [compare] stand for [dataAccess.findByEmail]
    on the user model and [bcrypt.compare]. *)
Definition login (findByEmail : JSValue -> Result (option (gmap string JSValue)))
    (compare : JSValue -> JSValue -> Result bool) (env : AuthEnv) (req : Request)
  : Flow :=
  let email := get (body req) "email" in
  let password := get (body req) "password" in
  if negb (ToBoolean email) || negb (ToBoolean password) then
    NextErr (AppError "Please provide email and password!" 400)
  else
    match findByEmail email with
    | Throw e => Rejected e
    | Ok u =>
        if is_absent u || negb (ToBoolean (get (default ∅ u) "password")) then
          NextErr (AppError "Incorrect email or password" 401)
        else
          match compare password (get (default ∅ u) "password") with
          | Throw e => Rejected e
          | Ok isMatch =>
              if negb isMatch
              then NextErr (AppError "Incorrect email or password" 401)
              else Responded (createSendToken env (default ∅ u) 200)
          end
    end.

Definition logout (env : AuthEnv) : Response :=
  {| res_cookie :=
       Some {| cookie_name := "jwt"; cookie_value := "loggedout";
               cookie_expires := Date_now env + 10 * 1000;
               cookie_httpOnly := true; cookie_secure := false |};
     res_status := 200;
     json_status := "success";
     json_token := None;
     json_user := None;
     json_message := None |}.

Definition set_body (b : gmap string JSValue) (req : Request) : Request :=
  {| authorization := authorization req; cookies_jwt := cookies_jwt req;
     body := b; req_user := req_user req; res_locals_user := res_locals_user req |}.

(** ** Sample data for the auth controller *)

Definition admin_user : gmap string JSValue :=
  <["_id" := JString "u1"]>
    (<["role" := JString "admin"]> (<["password" := JString "hash"]> ∅)).

(** One valid token, ["good"], issued to user ["u1"], the only user. *)
Definition sample_env : AuthEnv :=
  {| verify := fun token =>
       match token with
       | Some t => if String.eqb t "good"
                   then Ok {| decoded_id := JString "u1"; iat := 100 |}
                   else Throw (ModelError "JsonWebTokenError")
       | None => Throw (ModelError "JsonWebTokenError")
       end;
     signToken := fun _ => "good";
     User_findById := fun id =>
       match id with
       | JString i => if String.eqb i "u1" then Ok (Some admin_user) else Ok None
       | _ => Ok None
       end;
     changedPasswordAfter := fun _ _ => false;
     nodeEnv := "development";
     jwtCookieExpiresIn := 90;
     Date_now := 0 |}.

Definition bearer_request (header : string) : Request :=
  {| authorization := Some header; cookies_jwt := None; body := ∅;
     req_user := None; res_locals_user := None |}.

(** * Properties *)

(** ** Numbers *)

Lemma round_shift_exact (x s : Z) : 0 < s -> round_shift (x * 2 ^ s) s = x.
Proof.
  intros Hs. unfold round_shift.
  assert (P : 0 < 2 ^ s) by (apply Z.pow_pos_nonneg; lia).
  assert (H : 0 < 2 ^ (s - 1)) by (apply Z.pow_pos_nonneg; lia).
  rewrite Z.div_mul by lia. rewrite Z.mod_mul by lia.
  apply Z.ltb_lt in H. rewrite H. reflexivity.
Qed.

Lemma round_shift_scale (m s k : Z) :
  0 < s -> 0 <= k -> round_shift (m * 2 ^ k) (s + k) = round_shift m s.
Proof.
  intros Hs Hk. unfold round_shift.
  assert (Pk : 0 < 2 ^ k) by (apply Z.pow_pos_nonneg; lia).
  assert (Ps : 0 < 2 ^ s) by (apply Z.pow_pos_nonneg; lia).
  assert (Ph : 0 < 2 ^ (s - 1)) by (apply Z.pow_pos_nonneg; lia).
  rewrite (Z.pow_add_r 2 s k) by lia.
  rewrite Z.div_mul_cancel_r by lia.
  rewrite Z.mul_mod_distr_r by lia.
  replace (s + k - 1) with ((s - 1) + k) by lia.
  rewrite (Z.pow_add_r 2 (s - 1) k) by lia.
  assert (E1 : (m mod 2 ^ s * 2 ^ k <? 2 ^ (s - 1) * 2 ^ k) = (m mod 2 ^ s <? 2 ^ (s - 1))).
  { destruct (Z.ltb_spec (m mod 2 ^ s) (2 ^ (s - 1))).
    - apply Z.ltb_lt. nia.
    - apply Z.ltb_ge. nia. }
  assert (E2 : (2 ^ (s - 1) * 2 ^ k <? m mod 2 ^ s * 2 ^ k) = (2 ^ (s - 1) <? m mod 2 ^ s)).
  { destruct (Z.ltb_spec (2 ^ (s - 1)) (m mod 2 ^ s)).
    - apply Z.ltb_lt. nia.
    - apply Z.ltb_ge. nia. }
  rewrite E1, E2. reflexivity.
Qed.

Lemma log2_scale (m k : Z) :
  m <> 0 -> 0 <= k -> Z.log2 (Z.abs (m * 2 ^ k)) = Z.log2 (Z.abs m) + k.
Proof.
  intros Hm Hk.
  assert (Pk : 0 < 2 ^ k) by (apply Z.pow_pos_nonneg; lia).
  rewrite Z.abs_mul, (Z.abs_eq (2 ^ k)) by lia.
  rewrite <- Z.shiftl_mul_pow2 by lia. apply Z.log2_shiftl; lia.
Qed.

Lemma rnd_scale (m e k : Z) : 0 <= k -> rnd (m * 2 ^ k) (e - k) = rnd m e.
Proof.
  intros Hk.
  assert (Pk : 0 < 2 ^ k) by (apply Z.pow_pos_nonneg; lia).
  unfold rnd. destruct (Z.eqb_spec m 0) as [->|Hm]; [reflexivity|].
  destruct (Z.eqb_spec (m * 2 ^ k) 0) as [H0|_]; [nia|].
  rewrite (log2_scale m k Hm Hk).
  replace (e - k + (Z.log2 (Z.abs m) + k + 1) - 53) with (e + (Z.log2 (Z.abs m) + 1) - 53)
    by lia.
  set (e' := Z.max (e + (Z.log2 (Z.abs m) + 1) - 53) (-1074)).
  assert (Em : (if e' <=? e - k then m * 2 ^ k * 2 ^ (e - k - e')
                else round_shift (m * 2 ^ k) (e' - (e - k)))
               = (if e' <=? e then m * 2 ^ (e - e') else round_shift m (e' - e))).
  { destruct (Z.leb_spec e' (e - k)) as [L1|L1].
    - destruct (Z.leb_spec e' e) as [L2|L2]; [|lia].
      replace (e - e') with (k + (e - k - e')) by lia.
      rewrite Z.pow_add_r by lia. lia.
    - destruct (Z.leb_spec e' e) as [L2|L2].
      + replace k with ((e - e') + (e' - (e - k))) at 1 by lia.
        rewrite Z.pow_add_r by lia. rewrite Z.mul_assoc.
        apply round_shift_exact. lia.
      + replace (e' - (e - k)) with ((e' - e) + k) by lia.
        apply round_shift_scale; lia. }
  rewrite Em.
  replace (m * 2 ^ k <? 0) with (m <? 0); [reflexivity|].
  destruct (Z.ltb_spec m 0); symmetry; [apply Z.ltb_lt|apply Z.ltb_ge]; nia.
Qed.

Lemma of_Z_exact (z : Z) :
  Z.abs z < 2 ^ 53 -> exists k, 0 <= k /\ of_Z z = Finite (z * 2 ^ k) (- k).
Proof.
  intros Hz. unfold of_Z, rnd.
  destruct (Z.eqb_spec z 0) as [->|Hne].
  - exists 1074. split; [lia|]. reflexivity.
  - set (n := Z.log2 (Z.abs z) + 1).
    assert (Hn : 0 < n <= 53).
    { unfold n. split; [pose proof (Z.log2_nonneg (Z.abs z)); lia|].
      assert (Z.log2 (Z.abs z) < 53); [|lia].
      apply Z.log2_lt_pow2; lia. }
    assert (Hb : 2 ^ (n - 1) <= Z.abs z < 2 ^ n).
    { unfold n. replace (Z.log2 (Z.abs z) + 1 - 1) with (Z.log2 (Z.abs z)) by lia.
      replace (Z.log2 (Z.abs z) + 1) with (Z.succ (Z.log2 (Z.abs z))) by lia.
      apply Z.log2_spec. lia. }
    replace (Z.max (0 + n - 53) (-1074)) with (n - 53) by lia.
    destruct (Z.leb_spec (n - 53) 0) as [_|]; [|lia].
    replace (0 - (n - 53)) with (53 - n) by lia.
    assert (P : 0 < 2 ^ (53 - n)) by (apply Z.pow_pos_nonneg; lia).
    assert (Hlt : Z.abs (z * 2 ^ (53 - n)) < 2 ^ 53).
    { rewrite Z.abs_mul, (Z.abs_eq (2 ^ (53 - n))) by lia.
      replace (2 ^ 53) with (2 ^ n * 2 ^ (53 - n)).
      - apply Z.mul_lt_mono_pos_r; lia.
      - rewrite <- Z.pow_add_r by lia. f_equal. lia. }
    destruct (Z.eqb_spec (Z.abs (z * 2 ^ (53 - n))) (2 ^ 53)) as [E|_]; [lia|].
    destruct (Z.ltb_spec 971 (n - 53)) as [|_]; [lia|].
    destruct (Z.eqb_spec (z * 2 ^ (53 - n)) 0) as [E|_]; [nia|].
    exists (53 - n). split; [lia|]. f_equal. lia.
Qed.

Lemma fadd_of_Z (a b : Z) :
  Z.abs a < 2 ^ 53 -> Z.abs b < 2 ^ 53 -> fadd (of_Z a) (of_Z b) = of_Z (a + b).
Proof.
  intros Ha Hb.
  destruct (of_Z_exact a Ha) as (ka & Hka & ->).
  destruct (of_Z_exact b Hb) as (kb & Hkb & ->).
  unfold fadd. unfold of_Z at 1.
  set (e := Z.min (- ka) (- kb)).
  rewrite <- (rnd_scale (a + b) 0 (- e)) by lia.
  f_equal; [|lia].
  rewrite <- !Z.mul_assoc, <- !Z.pow_add_r by lia.
  replace (ka + (- ka - e)) with (- e) by lia.
  replace (kb + (- kb - e)) with (- e) by lia. lia.
Qed.

Lemma fmul_of_Z (a b : Z) :
  Z.abs a < 2 ^ 53 -> Z.abs b < 2 ^ 53 -> fmul (of_Z a) (of_Z b) = of_Z (a * b).
Proof.
  intros Ha Hb.
  destruct (of_Z_exact a Ha) as (ka & Hka & ->).
  destruct (of_Z_exact b Hb) as (kb & Hkb & ->).
  unfold fmul. unfold of_Z.
  rewrite <- (rnd_scale (a * b) 0 (ka + kb)) by lia.
  f_equal; [|lia].
  rewrite Z.pow_add_r by lia. lia.
Qed.

Lemma integer_value_of_Z (z : Z) : safe_integer z -> integer_value (of_Z z) = Some z.
Proof.
  intros Hz. destruct (of_Z_exact z Hz) as (k & Hk & ->). unfold integer_value.
  assert (P : 0 < 2 ^ k) by (apply Z.pow_pos_nonneg; lia).
  destruct (Z.leb_spec 0 (- k)).
  - replace k with 0 by lia. f_equal. cbn. lia.
  - rewrite Z.opp_involutive, Z.mod_mul by lia. cbn.
    by rewrite Z.div_mul by lia.
Qed.

Lemma float_sum_snoc (l : list Number) (x : Number) :
  float_sum (l ++ [x]) = fadd (float_sum l) x.
Proof. unfold float_sum. by rewrite fold_left_app. Qed.

(** Integers whose absolute values add up to less than [2^53] are added
    without rounding, in whatever order. *)
Lemma fold_fadd_exact (cs : list Z) :
  forall acc, Z.abs acc + Zsum (Z.abs <$> cs) < 2 ^ 53 ->
              fold_left fadd (of_Z <$> cs) (of_Z acc) = of_Z (acc + Zsum cs).
Proof.
  assert (Hnn : forall l, 0 <= Zsum (Z.abs <$> l)).
  { induction l as [|x l IH]; cbn; lia. }
  induction cs as [|c cs IH]; intros acc Hb; cbn in *.
  - f_equal. lia.
  - pose proof (Hnn cs). rewrite fadd_of_Z by lia.
    rewrite IH by lia. f_equal. lia.
Qed.

Lemma Zsum_Permutation (l1 l2 : list Z) : l1 ≡ₚ l2 -> Zsum l1 = Zsum l2.
Proof. induction 1; cbn; lia. Qed.

(** ** Dates *)

(** Linear arithmetic over the millisecond constants. *)
Ltac ms_lia :=
  unfold msPerDay, msPerHour, msPerMinute, msPerSecond in *; lia.

Lemma time_decomposition (t : Z) :
  MakeDate (Day t)
           (MakeTime (HourFromTime t) (MinFromTime t) (SecFromTime t) (msFromTime t))
  = t.
Proof.
  unfold MakeDate, MakeTime, Day, HourFromTime, MinFromTime, SecFromTime,
    msFromTime, msPerDay, msPerHour, msPerMinute, msPerSecond.
  Z.div_mod_to_equations. lia.
Qed.

Lemma setHours_getHours (zone : TimeZone) (tza d k : Z) :
  LocalTZA zone d true = tza ->
  LocalTZA zone (d + tza + k * msPerHour) false = tza ->
  setHours zone d (getHours zone d + k) = d + k * msPerHour.
Proof.
  intros H1 H2. unfold setHours, getHours, UTC, LocalTime. rewrite H1.
  pose proof (time_decomposition (d + tza)) as E.
  replace (MakeDate (Day (d + tza))
             (MakeTime (HourFromTime (d + tza) + k) (MinFromTime (d + tza))
                (SecFromTime (d + tza)) (msFromTime (d + tza))))
    with (d + tza + k * msPerHour)
    by (unfold MakeDate, MakeTime in *; lia).
  rewrite H2. lia.
Qed.

Lemma setMinutes_getMinutes (zone : TimeZone) (tza d k : Z) :
  LocalTZA zone d true = tza ->
  LocalTZA zone (d + tza + k * msPerMinute) false = tza ->
  setMinutes zone d (getMinutes zone d + k) = d + k * msPerMinute.
Proof.
  intros H1 H2. unfold setMinutes, getMinutes, UTC, LocalTime. rewrite H1.
  pose proof (time_decomposition (d + tza)) as E.
  replace (MakeDate (Day (d + tza))
             (MakeTime (HourFromTime (d + tza)) (MinFromTime (d + tza) + k)
                (SecFromTime (d + tza)) (msFromTime (d + tza))))
    with (d + tza + k * msPerMinute)
    by (unfold MakeDate, MakeTime in *; lia).
  rewrite H2. lia.
Qed.

(** In a zone that keeps its offset, moving the local hour or minute on by
    [k] moves the time value on by [k] hours or minutes. *)
Lemma steady_setHours (zone : TimeZone) (tza lo hi d k : Z) :
  steady zone tza lo hi -> lo <= d <= hi -> lo <= d + k * msPerHour <= hi ->
  setHours zone d (getHours zone d + k) = d + k * msPerHour.
Proof.
  intros Hs Hd Hk. apply (setHours_getHours zone tza).
  - apply (Hs d Hd).
  - replace (d + tza + k * msPerHour) with (d + k * msPerHour + tza) by lia.
    apply (Hs _ Hk).
Qed.

Lemma steady_setMinutes (zone : TimeZone) (tza lo hi d k : Z) :
  steady zone tza lo hi -> lo <= d <= hi -> lo <= d + k * msPerMinute <= hi ->
  setMinutes zone d (getMinutes zone d + k) = d + k * msPerMinute.
Proof.
  intros Hs Hd Hk. apply (setMinutes_getMinutes zone tza).
  - apply (Hs d Hd).
  - replace (d + tza + k * msPerMinute) with (d + k * msPerMinute + tza) by lia.
    apply (Hs _ Hk).
Qed.

Lemma steady_weaken (zone : TimeZone) (tza lo hi lo' hi' : Z) :
  steady zone tza lo hi -> lo <= lo' -> hi' <= hi -> steady zone tza lo' hi'.
Proof. intros Hs Hlo Hhi t Ht. apply Hs. lia. Qed.

Lemma fixed_offset_steady (tza lo hi : Z) : steady (fixed_offset tza) tza lo hi.
Proof. intros t _. done. Qed.

(** New York keeps -4 hours up to the change and -5 hours from one hour
    after it. *)
Lemma new_york_steady_before (lo hi : Z) :
  hi < clocks_go_back -> steady new_york (-4 * msPerHour) lo hi.
Proof.
  intros Hhi t Ht. cbn.
  destruct (Z.ltb_spec t clocks_go_back); [|lia].
  destruct (Z.ltb_spec (t + -4 * msPerHour) (clocks_go_back - 4 * msPerHour));
    [done|lia].
Qed.

Lemma new_york_steady_after (lo hi : Z) :
  clocks_go_back + msPerHour <= lo -> steady new_york (-5 * msPerHour) lo hi.
Proof.
  intros Hlo t Ht. cbn.
  assert (0 < msPerHour) by done.
  destruct (Z.ltb_spec t clocks_go_back); [lia|].
  destruct (Z.ltb_spec (t + -5 * msPerHour) (clocks_go_back - 4 * msPerHour));
    [lia|done].
Qed.

Lemma orderScheduled_default_value (zone : TimeZone) (tza now : Z) :
  steady zone tza now (now + msPerHour + msPerMinute) ->
  orderScheduled_default zone now = now + msPerHour + msPerMinute.
Proof.
  intros Hs. unfold orderScheduled_default.
  rewrite (steady_setHours zone tza now (now + msPerHour + msPerMinute) now 1 Hs)
    by ms_lia.
  rewrite (steady_setMinutes zone tza now (now + msPerHour + msPerMinute) _ 1 Hs)
    by ms_lia.
  lia.
Qed.

Lemma orderScheduled_validator_spec (zone : TimeZone) (tza lo hi now1 now2 value : Z) :
  steady zone tza lo hi ->
  lo <= now1 -> now1 + msPerHour <= hi -> lo <= now2 -> now2 + 6 * msPerHour <= hi ->
  orderScheduled_validator zone now1 now2 value = true
  <-> now1 + msPerHour <= value /\ value <= now2 + 6 * msPerHour.
Proof.
  intros Hs H1 H2 H3 H4. unfold orderScheduled_validator.
  rewrite (steady_setHours zone tza lo hi now1 1 Hs) by ms_lia.
  rewrite (steady_setHours zone tza lo hi now2 6 Hs) by ms_lia.
  rewrite andb_true_iff, !Z.leb_le. lia.
Qed.


(** ** The hook: basic facts *)

Lemma run_app (s1 s2 : list nat) (h : Hook) :
  run (s1 ++ s2) h = run s2 (run s1 h).
Proof. unfold run. apply fold_left_app. Qed.

Lemma run_invariant (P : Hook -> Prop) :
  (forall i h, P h -> P (step i h)) ->
  forall sched h, P h -> P (run sched h).
Proof.
  intros Hstep sched. induction sched as [|i sched IH]; intros h Hh; [exact Hh|].
  cbn. apply IH, Hstep, Hh.
Qed.

Lemma step_length (i : nat) (h : Hook) :
  length (tasks (step i h)) = length (tasks h).
Proof.
  unfold step. destruct (tasks h !! i) as [t|]; [|done].
  destruct (resume t h) as [t' h'] eqn:E. cbn. rewrite length_insert.
  destruct t; cbn in E; repeat case_match; by simplify_eq.
Qed.

Lemma run_length (sched : list nat) (h : Hook) :
  length (tasks (run sched h)) = length (tasks h).
Proof.
  revert h. induction sched as [|i sched IH]; intros h; [done|].
  cbn. rewrite IH. apply step_length.
Qed.

(** Case analysis on what resuming callback [i] does. *)
Lemma step_cases (P : Hook -> Prop) (i : nat) (h : Hook) :
  (tasks h !! i = None -> P h) ->
  (forall item,
      tasks h !! i = Some (AwaitFind item) ->
      findById (db h) (dish item) = None ->
      P (set_task i (Bailed (DishNotFound (dish item)))
                  (call_next (Some (DishNotFound (dish item))) h))) ->
  (forall item id d,
      tasks h !! i = Some (AwaitFind item) ->
      findById (db h) (dish item) = Some (id, d) ->
      inventory d < quantity item ->
      P (set_task i (Bailed (NotEnoughInventory (name d)))
                  (call_next (Some (NotEnoughInventory (name d))) h))) ->
  (forall item id d,
      tasks h !! i = Some (AwaitFind item) ->
      findById (db h) (dish item) = Some (id, d) ->
      quantity item <= inventory d ->
      P (set_task i (AwaitSave item id (set_inventory (inventory d - quantity item) d)) h)) ->
  (forall item id d,
      tasks h !! i = Some (AwaitSave item id d) ->
      P (set_task i (Fulfilled item d)
           {| db := Dish_save id d (quantity item) (db h); tasks := tasks h;
              total := fadd (total h) (fmul (price d) (of_Z (quantity item)));
              calls := calls h;
              saves := saves h ++ [{| saved_dish := id;
                                      saved_quantity := quantity item;
                                      saved_inventory := inventory d |}] |})) ->
  (forall t, tasks h !! i = Some t -> returned t = true -> P (set_task i t h)) ->
  P (step i h).
Proof.
  intros Hnone Hmiss Hshort Hread Hwrite Hret. unfold step.
  destruct (tasks h !! i) as [t|] eqn:Ei; [|by apply Hnone].
  destruct t as [item|item id d|e|item d]; cbn.
  - destruct (findById (db h) (dish item)) as [[id d]|] eqn:Ef.
    + destruct (inventory d <? quantity item) eqn:Elt.
      * apply (Hshort item id d); [done..|]. by apply Z.ltb_lt.
      * apply (Hread item id d); [done..|]. by apply Z.ltb_ge.
    + by apply Hmiss.
  - by apply Hwrite.
  - by apply Hret.
  - by apply Hret.
Qed.

Lemma Dish_save_lookup_ne (id k : ObjectId) (d : Dish) (q : Z)
    (m : gmap ObjectId Dish) :
  id <> k -> Dish_save id d q m !! k = m !! k.
Proof.
  intros Hne. unfold Dish_save. destruct (q =? 0); [done|].
  by apply lookup_alter_ne.
Qed.

Lemma Dish_save_lookup (id : ObjectId) (d : Dish) (q : Z) (m : gmap ObjectId Dish) :
  Dish_save id d q m !! id
  = (fun d' => if q =? 0 then d' else set_inventory (inventory d) d') <$> m !! id.
Proof.
  unfold Dish_save. destruct (q =? 0).
  - by destruct (m !! id).
  - apply lookup_alter_eq.
Qed.

Lemma set_inventory_same (d : Dish) : set_inventory (inventory d - 0) d = d.
Proof. destruct d. unfold set_inventory. cbn. f_equal. lia. Qed.

(** A save that follows the read at once leaves the saved copy in the
    collection. *)
Lemma Dish_save_read (id : ObjectId) (d0 : Dish) (q : Z) (m : gmap ObjectId Dish) :
  m !! id = Some d0 ->
  Dish_save id (set_inventory (inventory d0 - q) d0) q m
  = <[id := set_inventory (inventory d0 - q) d0]> m.
Proof.
  intros Hm. apply map_eq. intros k. destruct (decide (id = k)) as [<-|Hne].
  - rewrite Dish_save_lookup, lookup_insert_eq, Hm. cbn.
    destruct (Z.eqb_spec q 0) as [->|_]; [|done].
    by rewrite set_inventory_same.
  - by rewrite Dish_save_lookup_ne, lookup_insert_ne.
Qed.

Lemma findById_Some (m : gmap ObjectId Dish) (ref : option ObjectId)
    (id : ObjectId) (d : Dish) :
  findById m ref = Some (id, d) <-> ref = Some id /\ m !! id = Some d.
Proof.
  unfold findById. destruct ref as [k|].
  - destruct (m !! k) as [d'|] eqn:E; split.
    + intros [= -> ->]. done.
    + intros [[= ->] Hd]. congruence.
    + discriminate.
    + intros [[= ->] Hd]. congruence.
  - split; [discriminate|]. intros [? _]. discriminate.
Qed.

(** ** Inventory stays non-negative *)

Lemma step_stock_ok (i : nat) (h : Hook) :
  stock_ok (db h) /\ Forall pending_ok (tasks h) ->
  stock_ok (db (step i h)) /\ Forall pending_ok (tasks (step i h)).
Proof.
  intros [Hdb Hts]. unfold step.
  destruct (tasks h !! i) as [t|] eqn:Ei; [|done].
  pose proof (Forall_lookup_1 _ _ _ _ Hts Ei) as Ht.
  destruct t as [item|item id d|e|item d]; cbn.
  - unfold findById. destruct (dish item) as [id|]; cbn.
    + destruct (db h !! id) as [d|] eqn:Ed; cbn.
      * destruct (inventory d <? quantity item) eqn:Elt; cbn.
        -- split; [done|]. by apply Forall_insert.
        -- split; [done|]. apply Forall_insert; [done|]. cbn.
           apply Z.ltb_ge in Elt. lia.
      * split; [done|]. by apply Forall_insert.
    + split; [done|]. by apply Forall_insert.
  - split.
    + intros k dk Hk. destruct (decide (id = k)) as [<-|Hne].
      * rewrite Dish_save_lookup in Hk.
        destruct (db h !! id) as [d'|] eqn:Ed; [|discriminate].
        injection Hk as <-. destruct (quantity item =? 0); [by apply (Hdb id)|].
        exact Ht.
      * rewrite Dish_save_lookup_ne in Hk by done. by apply (Hdb k).
    + by apply Forall_insert.
  - split; [done|]. by apply Forall_insert.
  - split; [done|]. by apply Forall_insert.
Qed.

Lemma run_stock_ok (sched : list nat) (h : Hook) :
  stock_ok (db h) -> Forall pending_ok (tasks h) ->
  stock_ok (db (run sched h)).
Proof.
  intros Hdb Hts.
  apply (run_invariant (fun h => stock_ok (db h) /\ Forall pending_ok (tasks h)));
    [apply step_stock_ok|done].
Qed.

Lemma start_pending_ok (m : gmap ObjectId Dish) (items : list LineItem) :
  Forall pending_ok (tasks (start m items)).
Proof. cbn. apply Forall_fmap, Forall_true. done. Qed.

Lemma promise_all_stock_ok (sched : list nat) (m : gmap ObjectId Dish)
    (items : list LineItem) :
  stock_ok m -> stock_ok (db (promise_all sched m items)).
Proof.
  intros Hm. unfold promise_all. rewrite <- run_app.
  apply run_stock_ok; [exact Hm|apply start_pending_ok].
Qed.

Lemma save_stock_ok (zone : TimeZone) (now : Z) (sched : list nat)
    (isNew isMod : bool) (this : Order) (s : Store) :
  stock_ok (dishStore s) ->
  stock_ok (dishStore (snd (save zone now sched isNew isMod this s))).
Proof.
  intros Hs. unfold save. destruct (validate zone now this); [|done].
  destruct (pre_save sched (dishStore s) isNew isMod this) as [h this'] eqn:E.
  assert (Hh : stock_ok (db h)).
  { unfold pre_save in E. destruct (isMod || isNew); simplify_eq; cbn; [|done].
    by apply promise_all_stock_ok. }
  destruct (calls h) as [|[e|] ?]; done.
Qed.

(** C6. From a collection whose inventories are non-negative, no state that
    the hook can reach has a negative inventory: not after any number of
    resumptions in any order of the callbacks of any line items, not when
    [Promise.all] has settled, and not after any sequence of order creations.
    (The code has no compensation step; reservations are the only writes.) *)
Theorem inventory_never_negative (m : gmap ObjectId Dish) :
  stock_ok m ->
  (forall items sched, stock_ok (db (run sched (start m items))))
  /\ (forall items sched, stock_ok (db (promise_all sched m items)))
  /\ (forall zone reqs orders,
        stock_ok (dishStore (Order_create_all zone reqs
                               {| dishStore := m; orderStore := orders |}))).
Proof.
  intros Hm. split; [|split].
  - intros items sched. apply run_stock_ok; [exact Hm|apply start_pending_ok].
  - intros items sched. by apply promise_all_stock_ok.
  - intros zone reqs. unfold Order_create_all.
    assert (G : forall s, stock_ok (dishStore s) ->
      stock_ok (dishStore (fold_left
        (fun s '(now, sched, id, data) => snd (Order_create zone now sched id data s))
        reqs s))).
    { induction reqs as [|[[[now sched] id] data] reqs IH]; intros s Hs; [done|].
      cbn [fold_left]. apply IH. unfold Order_create. by apply save_stock_ok. }
    intros orders. by apply G.
Qed.

(** ** The bookkeeping invariant *)

Lemma omap_insert_same {A B} (f : A -> option B) (l : list A) (i : nat) (x y : A) :
  l !! i = Some x -> f x = f y -> omap f (<[i := y]> l) = omap f l.
Proof.
  revert i. induction l as [|a l IH]; intros [|i] H E; try discriminate.
  - simpl in *. injection H as ->. by rewrite E.
  - simpl in *. specialize (IH i H E). destruct (f a); [f_equal|]; exact IH.
Qed.

Lemma omap_insert_new {A B} (f : A -> option B) (l : list A) (i : nat)
    (x y : A) (b : B) :
  l !! i = Some x -> f x = None -> f y = Some b ->
  omap f (<[i := y]> l) ≡ₚ omap f l ++ [b].
Proof.
  revert i. induction l as [|a l IH]; intros [|i] H Ex Ey; try discriminate.
  - simpl in *. injection H as ->. rewrite Ex, Ey.
    by rewrite Permutation_app_comm.
  - simpl in *. specialize (IH i H Ex Ey).
    destruct (f a); [apply Permutation_cons; [done|]|]; exact IH.
Qed.

Lemma hook_inv_start (m : gmap ObjectId Dish) (items : list LineItem) :
  hook_inv m items (start m items).
Proof.
  split; cbn.
  - apply Forall2_fmap_r, Forall_Forall2_diag, Forall_true. done.
  - done.
  - reflexivity.
  - induction items as [|x l IH]; cbn; [done|]. exact IH.
  - induction items as [|x l IH]; cbn; [done|]. exact IH.
Qed.

Lemma hook_inv_step (m0 : gmap ObjectId Dish) (items : list LineItem)
    (i : nat) (h : Hook) :
  hook_inv m0 items h -> hook_inv m0 items (step i h).
Proof.
  intros [Ht Hp Hs Hc Hw].
  assert (Hitem : forall t, tasks h !! i = Some t ->
            exists item, items !! i = Some item /\ task_for m0 item t).
  { intros t E. by apply (Forall2_lookup_r _ _ _ _ _ Ht E). }
  assert (Hins : forall t t' item, tasks h !! i = Some t -> items !! i = Some item ->
            task_for m0 item t' -> Forall2 (task_for m0) items (<[i := t']> (tasks h))).
  { intros t t' item E Ei Hf. rewrite <- (list_insert_id items i item Ei).
    by apply Forall2_insert. }
  apply step_cases.
  - done.
  - intros item E F. destruct (Hitem _ E) as (item' & Ei & Hf). split; cbn.
    + by eapply Hins.
    + done.
    + done.
    + symmetry. etrans; [by eapply (omap_insert_new reported)|]. by rewrite Hc.
    + by rewrite (omap_insert_same reserved _ _ _ _ E).
  - intros item id d E F L. destruct (Hitem _ E) as (item' & Ei & Hf). split; cbn.
    + by eapply Hins.
    + done.
    + done.
    + symmetry. etrans; [by eapply (omap_insert_new reported)|]. by rewrite Hc.
    + by rewrite (omap_insert_same reserved _ _ _ _ E).
  - intros item id d E F L. destruct (Hitem _ E) as (item' & Ei & Hf).
    cbn in Hf. subst item'. apply findById_Some in F as [Fd Fm]. split; cbn.
    + eapply Hins; [done..|]. cbn. split; [done|]. split; [done|].
      by rewrite <- Hp, Fm.
    + done.
    + done.
    + by rewrite (omap_insert_same reported _ _ _ _ E).
    + by rewrite (omap_insert_same reserved _ _ _ _ E).
  - intros item id d E. destruct (Hitem _ E) as (item' & Ei & Hf).
    cbn in Hf. destruct Hf as (Heq & Hd & Hpr). subst item'. split; cbn.
    + eapply Hins; [done..|]. cbn. eauto.
    + intros k. rewrite <- Hp. destruct (decide (id = k)) as [<-|Hne].
      * rewrite Dish_save_lookup. destruct (db h !! id) as [d'|]; [|done].
        cbn. by destruct (quantity item =? 0).
      * by rewrite Dish_save_lookup_ne.
    + rewrite !fmap_app. cbn [fmap list_fmap]. rewrite float_sum_snoc, <- Hs.
      f_equal.
      unfold line_price, event_item, findById. cbn.
      destruct (m0 !! id) as [d0|]; [|discriminate].
      cbn in Hpr. injection Hpr as ->. done.
    + by rewrite (omap_insert_same reported _ _ _ _ E).
    + symmetry. etrans; [by eapply (omap_insert_new reserved)|].
      rewrite fmap_app, Hw. cbn. unfold event_item. cbn.
      destruct item as [r q]. cbn in Hd. by subst r.
  - intros t E R. split; cbn; by rewrite ?(list_insert_id _ _ _ E).
Qed.

Lemma hook_inv_run (m : gmap ObjectId Dish) (items : list LineItem) (sched : list nat) :
  hook_inv m items (run sched (start m items)).
Proof. apply run_invariant; [apply hook_inv_step|apply hook_inv_start]. Qed.

Lemma hook_inv_promise_all (m : gmap ObjectId Dish) (items : list LineItem)
    (sched : list nat) :
  hook_inv m items (promise_all sched m items).
Proof. unfold promise_all. rewrite <- run_app. apply hook_inv_run. Qed.

(** ** [Promise.all] settles *)

Lemma resume_tasks (t : Task) (h : Hook) : tasks (snd (resume t h)) = tasks h.
Proof. destruct t; cbn; repeat case_match; done. Qed.

Lemma resume_returned (t : Task) (h : Hook) :
  returned t = true -> resume t h = (t, h).
Proof. by destruct t. Qed.

Lemma resume_twice_returned (t : Task) (h h' : Hook) :
  returned (fst (resume (fst (resume t h)) h')) = true.
Proof. destruct t; cbn; repeat case_match; done. Qed.

Lemma step_tasks (i : nat) (h : Hook) (t : Task) :
  tasks h !! i = Some t ->
  tasks (step i h) = <[i := fst (resume t h)]> (tasks h).
Proof.
  intros E. unfold step. rewrite E.
  pose proof (resume_tasks t h) as Ht.
  destruct (resume t h) as [t' h']. cbn in *. by rewrite Ht.
Qed.

Lemma done_at_step (j i : nat) (h : Hook) : done_at j h -> done_at j (step i h).
Proof.
  intros (t & Ej & R). exists t. split; [|exact R].
  destruct (tasks h !! i) as [ti|] eqn:Ei.
  - rewrite (step_tasks _ _ _ Ei). destruct (decide (i = j)) as [->|Hne].
    + rewrite Ej in Ei. injection Ei as <-.
      rewrite (resume_returned _ _ R). cbn.
      by rewrite list_insert_id.
    + by rewrite list_lookup_insert_ne.
  - unfold step. by rewrite Ei.
Qed.

Lemma done_at_run (j : nat) (sched : list nat) (h : Hook) :
  done_at j h -> done_at j (run sched h).
Proof. apply run_invariant. intros i h'. apply done_at_step. Qed.

Lemma done_at_step_twice (i : nat) (h : Hook) :
  (i < length (tasks h))%nat -> done_at i (step i (step i h)).
Proof.
  intros Hlt. destruct (lookup_lt_is_Some_2 _ _ Hlt) as [t E].
  assert (E1 : tasks (step i h) !! i = Some (fst (resume t h))).
  { rewrite (step_tasks _ _ _ E). by apply list_lookup_insert_eq. }
  exists (fst (resume (fst (resume t h)) (step i h))). split.
  - rewrite (step_tasks _ _ _ E1). apply list_lookup_insert_eq.
    by rewrite step_length.
  - apply resume_twice_returned.
Qed.

Lemma done_at_each (js : list nat) (h : Hook) (j : nat) :
  (forall k, k ∈ js -> (k < length (tasks h))%nat) ->
  j ∈ js ->
  done_at j (run (flat_map (fun i => [i; i]) js) h).
Proof.
  revert h. induction js as [|i js IH]; intros h Hlt Hj.
  - by apply not_elem_of_nil in Hj.
  - cbn. apply elem_of_cons in Hj as [->|Hj].
    + apply done_at_run, done_at_step_twice, Hlt, elem_of_cons. by left.
    + apply IH; [|exact Hj]. intros k Hk. rewrite !step_length.
      apply Hlt, elem_of_cons. by right.
Qed.

Lemma one_by_one_returned (h : Hook) :
  Forall (fun t => returned t = true) (tasks (run (one_by_one (length (tasks h))) h)).
Proof.
  apply Forall_lookup_2. intros j t E.
  assert (Hj : (j < length (tasks h))%nat).
  { rewrite <- (run_length (one_by_one (length (tasks h))) h). by eapply lookup_lt_Some. }
  destruct (done_at_each (seq 0 (length (tasks h))) h j) as (t' & E' & R).
  - intros k Hk. apply elem_of_seq in Hk. lia.
  - apply elem_of_seq. lia.
  - unfold one_by_one in E. rewrite E in E'. by injection E' as <-.
Qed.

Lemma promise_all_returned (sched : list nat) (m : gmap ObjectId Dish)
    (items : list LineItem) :
  Forall (fun t => returned t = true) (tasks (promise_all sched m items)).
Proof. unfold promise_all. apply one_by_one_returned. Qed.

(** ** When no callback fails *)

Lemma calls_are_errors (m0 : gmap ObjectId Dish) (items : list LineItem) (h : Hook)
    (c : option HookError) :
  hook_inv m0 items h -> c ∈ calls h -> exists e, c = Some e.
Proof.
  intros Hinv Hc. rewrite (inv_calls _ _ _ Hinv) in Hc.
  apply list_elem_of_omap in Hc as (t & _ & Ht).
  destruct t; try discriminate. injection Ht as <-. eauto.
Qed.

Lemma all_fulfilled (m0 : gmap ObjectId Dish) (items : list LineItem) (ts : list Task) :
  Forall2 (task_for m0) items ts ->
  Forall (fun t => returned t = true) ts ->
  omap reported ts = [] ->
  omap reserved ts = items.
Proof.
  induction 1 as [|item t items ts Hf _ IH]; intros Hr Hc; [done|].
  apply Forall_cons in Hr as [Rt Hr].
  destruct t as [it|it id d|e|it d]; try discriminate.
  cbn in Hc. specialize (IH Hr Hc).
  destruct Hf as (-> & id & Hd & Hp). cbn. f_equal. exact IH.
Qed.

Lemma no_failure_summary (sched : list nat) (m : gmap ObjectId Dish)
    (items : list LineItem) :
  calls (promise_all sched m items) = [] ->
  event_item <$> saves (promise_all sched m items) ≡ₚ items.
Proof.
  intros Hc. pose proof (hook_inv_promise_all m items sched) as Hinv.
  rewrite (inv_saves _ _ _ Hinv).
  rewrite (all_fulfilled m items (tasks (promise_all sched m items))); [done|..].
  - apply (inv_tasks _ _ _ Hinv).
  - apply promise_all_returned.
  - symmetry. apply Permutation_nil_l. rewrite <- Hc. apply (inv_calls _ _ _ Hinv).
Qed.

Lemma save_new_Saved (zone : TimeZone) (now : Z) (sched : list nat) (isMod : bool)
    (this o : Order) (s s' : Store) :
  save zone now sched true isMod this s = (Saved o, s') ->
  validate zone now this = []
  /\ calls (promise_all sched (dishStore s) (dishes this)) = []
  /\ o = set_totalPrice
           (if negb (isSelfCollection this)
            then fadd (total (promise_all sched (dishStore s) (dishes this))) (of_Z 30)
            else total (promise_all sched (dishStore s) (dishes this))) this
  /\ s' = {| dishStore := db (promise_all sched (dishStore s) (dishes this));
             orderStore := <[_id o := o]> (orderStore s) |}.
Proof.
  unfold save. destruct (validate zone now this) as [|p ps]; [|discriminate].
  unfold pre_save. rewrite orb_true_r.
  set (h := promise_all sched (dishStore s) (dishes this)).
  cbn [calls call_next db].
  destruct (calls h) as [|c cs] eqn:Ec.
  - cbn. intros [= <- <-]. done.
  - destruct (calls_are_errors (dishStore s) (dishes this) h c) as [e ->].
    + apply hook_inv_promise_all.
    + rewrite Ec. apply elem_of_cons. by left.
    + cbn. discriminate.
Qed.

(** ** The total *)

Lemma line_price_integer (m : gmap ObjectId Dish) (item : LineItem) :
  integer_prices m -> safe_integer (quantity item) ->
  line_price m item = of_Z (line_amount m item).
Proof.
  intros Hm Hq. unfold line_price, line_amount.
  destruct (findById m (dish item)) as [[id d]|] eqn:F; [|done].
  apply findById_Some in F as [_ Fm].
  destruct (Hm id d Fm) as (p & Hp & Hsafe).
  rewrite Hp, (integer_value_of_Z p Hsafe). cbn. by apply fmul_of_Z.
Qed.

Lemma Zsum_abs (l : list Z) : Z.abs (Zsum l) <= Zsum (Z.abs <$> l).
Proof. induction l as [|x l IH]; cbn; lia. Qed.

(** With integer prices and quantities and line amounts that stay below
    [2^53] in absolute value, the total the hook accumulates is the exact
    sum, whatever the order of the additions. *)
Lemma float_sum_integer (m : gmap ObjectId Dish) (items evs : list LineItem) :
  integer_prices m ->
  Forall (fun item => safe_integer (quantity item)) items ->
  order_bound m items < 2 ^ 53 ->
  evs ≡ₚ items ->
  float_sum (line_price m <$> evs) = of_Z (order_sum m items).
Proof.
  intros Hm Hq Hb Hperm. unfold order_sum, order_bound in *.
  rewrite <- Hperm in Hq.
  rewrite <- (Zsum_Permutation (line_amount m <$> evs) (line_amount m <$> items))
    by (by apply fmap_Permutation).
  rewrite <- (Zsum_Permutation (Z.abs <$> (line_amount m <$> evs))
                (Z.abs <$> (line_amount m <$> items))) in Hb
    by (by do 2 apply fmap_Permutation).
  replace (line_price m <$> evs) with (of_Z <$> (line_amount m <$> evs)).
  - unfold float_sum. by rewrite fold_fadd_exact by (cbn; lia).
  - rewrite <- list_fmap_compose. apply Forall_fmap_ext_1.
    eapply Forall_impl; [exact Hq|]. intros item Hi. cbn.
    symmetry. by apply line_price_integer.
Qed.

(** C3 (as the code has it).  For every order that is created and saved,
    the hook has called [dish.save()] once for each line item, and
    [totalPrice] is what JavaScript's additions give: the Numbers
    [dish.price * quantity], added to 0 one by one in the order in which
    those calls completed, each product and each sum rounded to binary64,
    and then 30 added when [isSelfCollection] is false.  When the prices and
    quantities are integers and the absolute line amounts and the surcharge
    add up to less than [2^53], nothing is rounded and [totalPrice] is
    exactly the sum over the line items of price times quantity, plus 30 or
    plus nothing.  The order is stored under its identifier. *)
Theorem total_price_formula (zone : TimeZone) (now : Z) (sched : list nat)
    (id : ObjectId) (data : OrderData) (s s' : Store) (o : Order) :
  Order_create zone now sched id data s = (Saved o, s') ->
  let h := promise_all sched (dishStore s) (dishes o) in
  let amounts := line_price (dishStore s) <$> (event_item <$> saves h) in
  event_item <$> saves h ≡ₚ dishes o
  /\ totalPrice o
     = (if isSelfCollection o then float_sum amounts
        else fadd (float_sum amounts) (of_Z 30))
  /\ (integer_prices (dishStore s) ->
      Forall (fun item => safe_integer (quantity item)) (dishes o) ->
      order_bound (dishStore s) (dishes o) + 30 < 2 ^ 53 ->
      let sum := order_sum (dishStore s) (dishes o)
                 + (if isSelfCollection o then 0 else 30) in
      totalPrice o = of_Z sum /\ integer_value (totalPrice o) = Some sum)
  /\ orderStore s' !! id = Some o.
Proof.
  unfold Order_create. intros H.
  remember (new_Order zone now id data) as this eqn:Ethis.
  apply save_new_Saved in H as (_ & Hc & -> & ->).
  pose proof (no_failure_summary _ _ _ Hc) as Hperm.
  pose proof (inv_total _ _ _ (hook_inv_promise_all (dishStore s) (dishes this) sched))
    as Ht.
  cbn [totalPrice set_totalPrice dishes isSelfCollection orderStore _id].
  split; [exact Hperm|]. split; [|split].
  - rewrite Ht. by destruct (isSelfCollection this).
  - intros Hm Hq Hb.
    pose proof (float_sum_integer (dishStore s) (dishes this) _ Hm Hq ltac:(lia) Hperm)
      as Hsum.
    pose proof (Zsum_abs (line_amount (dishStore s) <$> dishes this)) as Habs.
    fold (order_sum (dishStore s) (dishes this)) in Habs.
    fold (order_bound (dishStore s) (dishes this)) in Habs.
    rewrite Ht, Hsum.
    assert (E : (if negb (isSelfCollection this)
                 then fadd (of_Z (order_sum (dishStore s) (dishes this))) (of_Z 30)
                 else of_Z (order_sum (dishStore s) (dishes this)))
                = of_Z (order_sum (dishStore s) (dishes this)
                        + (if isSelfCollection this then 0 else 30))).
    { destruct (isSelfCollection this); cbn.
      - f_equal. lia.
      - apply fadd_of_Z; unfold safe_integer; lia. }
    rewrite E. split; [done|].
    apply integer_value_of_Z. unfold safe_integer.
    destruct (isSelfCollection this); lia.
  - replace id with (_id this) by (by subst this). apply lookup_insert_eq.
Qed.

(** ** Line items on distinct dishes *)

Lemma findById_insert_ne (m : gmap ObjectId Dish) (id : ObjectId) (d : Dish)
    (ref : option ObjectId) :
  ref <> Some id -> findById (<[id := d]> m) ref = findById m ref.
Proof.
  intros Hne. unfold findById. destruct ref as [k|]; [|done].
  rewrite lookup_insert_ne; [done|congruence].
Qed.

Lemma reservation_Some (m0 : gmap ObjectId Dish) (item : LineItem)
    (id : ObjectId) (d : Dish) :
  reservation m0 item = Some (id, d) -> dish item = Some id.
Proof.
  unfold reservation. destruct (findById m0 (dish item)) as [[k d0]|] eqn:F; [|done].
  apply findById_Some in F as [Hd _]. destruct (_ <? _); [done|].
  by intros [= <- _].
Qed.

Lemma distinct_inv_start (m : gmap ObjectId Dish) (items : list LineItem) :
  distinct_inv m items (start m items).
Proof.
  split; cbn.
  - intros j item t Ei Et. rewrite list_lookup_fmap, Ei in Et.
    injection Et as <-. done.
  - by rewrite length_map.
  - done.
Qed.

(** The hook started in [m0] on line items that name pairwise distinct
    dishes: no two callbacks read or write the same document. *)
Section DistinctDishes.
Variable m0 : gmap ObjectId Dish.
Variable items : list LineItem.
Hypothesis Hnd : NoDup (dish <$> items).

Lemma distinct_inv_step (i : nat) (h : Hook) :
  distinct_inv m0 items h -> distinct_inv m0 items (step i h).
Proof.
  intros [Ht Hl Hfr].
  (* a resumption that writes nothing: only callback [i] changes *)
  assert (Hquiet : forall t t' h', tasks h !! i = Some t ->
            db h' = db h -> tasks h' = tasks h ->
            (forall item, items !! i = Some item ->
               task_state m0 (db h) item t -> task_state m0 (db h) item t') ->
            distinct_inv m0 items (set_task i t' h')).
  { intros t t' h' E Hdb Hts Hnew. split; cbn; rewrite ?Hdb, ?Hts.
    - intros j item tj Ei Ej. destruct (decide (i = j)) as [<-|Hne].
      + rewrite list_lookup_insert_eq in Ej by (by eapply lookup_lt_Some).
        injection Ej as <-. by eapply Hnew, Ht.
      + rewrite list_lookup_insert_ne in Ej by done. by eapply Ht.
    - by rewrite length_insert.
    - done. }
  apply step_cases.
  - done.
  - intros item E F. apply (Hquiet _ _ _ E); [done..|].
    intros item' Ei [-> Hsame]. cbn. split; [done|].
    unfold reservation. by rewrite <- Hsame, F.
  - intros item id d E F L. apply (Hquiet _ _ _ E); [done..|].
    intros item' Ei [-> Hsame]. cbn. split; [done|].
    unfold reservation. rewrite <- Hsame, F.
    apply Z.ltb_lt in L. by rewrite L.
  - intros item id d E F L. apply (Hquiet _ _ _ E); [done..|].
    intros item' Ei [-> Hsame]. cbn. split; [done|]. split; [done|].
    unfold reservation. rewrite <- Hsame, F.
    apply Z.ltb_ge in L. by rewrite L.
  - intros item id d E.
    assert (Hi : (i < length items)%nat).
    { rewrite <- Hl. by eapply lookup_lt_Some. }
    destruct (lookup_lt_is_Some_2 _ _ Hi) as [item' Ei].
    destruct (Ht _ _ _ Ei E) as (-> & Hsame & Hres).
    pose proof (reservation_Some _ _ _ _ Hres) as Hd.
    (* no other callback has written this dish: the save leaves the copy *)
    assert (Hdb : Dish_save id d (quantity item') (db h) = <[id := d]> (db h)).
    { pose proof Hres as Hres'. unfold reservation in Hres'. rewrite <- Hsame in Hres'.
      destruct (findById (db h) (dish item')) as [[k d0]|] eqn:F; [|discriminate].
      apply findById_Some in F as [_ Fm].
      destruct (inventory d0 <? quantity item'); [discriminate|].
      injection Hres' as <- <-. by apply Dish_save_read. }
    rewrite Hdb.
    assert (Hother : forall j itemj, i <> j -> items !! j = Some itemj ->
              dish itemj <> Some id).
    { intros j itemj Hne Ej Heq. apply Hne.
      apply (NoDup_lookup (dish <$> items) i j (Some id) Hnd).
      - by rewrite list_lookup_fmap, Ei; cbn; rewrite Hd.
      - by rewrite list_lookup_fmap, Ej; cbn; rewrite Heq. }
    split; cbn.
    + intros j itemj tj Ej Etj. destruct (decide (i = j)) as [<-|Hne].
      * rewrite list_lookup_insert_eq in Etj by (by eapply lookup_lt_Some).
        injection Etj as <-. rewrite Ei in Ej. injection Ej as <-.
        cbn. split; [done|]. exists id. split; [done|]. apply lookup_insert_eq.
      * rewrite list_lookup_insert_ne in Etj by done.
        pose proof (Ht _ _ _ Ej Etj) as Hj.
        pose proof (Hother _ _ Hne Ej) as Hdj.
        destruct tj as [it|it k dk|e|it dk]; cbn in Hj |- *.
        -- destruct Hj as [-> Hj]. by rewrite findById_insert_ne.
        -- destruct Hj as (-> & Hj & Hr). by rewrite findById_insert_ne.
        -- destruct Hj as [Hj Hr]. by rewrite findById_insert_ne.
        -- destruct Hj as (-> & k & Hr & Hk). split; [done|]. exists k.
           split; [done|]. rewrite lookup_insert_ne; [done|].
           apply reservation_Some in Hr. congruence.
    + by rewrite length_insert.
    + intros k Hk. rewrite lookup_insert_ne; [by apply Hfr|].
      intros ->. apply Hk. apply list_elem_of_lookup. exists i.
      by rewrite list_lookup_fmap, Ei; cbn; rewrite Hd.
  - intros t E R. apply (Hquiet _ _ _ E); done.
Qed.

Lemma distinct_inv_promise_all (sched : list nat) :
  distinct_inv m0 items (promise_all sched m0 items).
Proof.
  unfold promise_all. rewrite <- run_app.
  apply run_invariant; [apply distinct_inv_step|apply distinct_inv_start].
Qed.

(** When [Promise.all] has settled, the callback of each line item has
    returned in the state its own dish decides. *)
Lemma settled_task (sched : list nat) (j : nat) (item : LineItem) :
  items !! j = Some item ->
  exists t, tasks (promise_all sched m0 items) !! j = Some t
            /\ returned t = true
            /\ task_state m0 (db (promise_all sched m0 items)) item t.
Proof.
  intros Ej. pose proof (distinct_inv_promise_all sched) as Hinv.
  assert (Hj : (j < length (tasks (promise_all sched m0 items)))%nat).
  { rewrite (dinv_length _ _ _ Hinv). by eapply lookup_lt_Some. }
  destruct (lookup_lt_is_Some_2 _ _ Hj) as [t Et]. exists t. split; [done|]. split.
  - by apply (Forall_lookup_1 _ _ _ _ (promise_all_returned sched m0 items) Et).
  - by apply (dinv_tasks _ _ _ Hinv j).
Qed.

Lemma distinct_final_stock (sched : list nat) (item : LineItem) (id : ObjectId)
    (d0 : Dish) :
  item ∈ items -> dish item = Some id -> m0 !! id = Some d0 ->
  db (promise_all sched m0 items) !! id
  = Some (if inventory d0 <? quantity item then d0
          else set_inventory (inventory d0 - quantity item) d0).
Proof.
  intros Hin Hd Hm. apply list_elem_of_lookup in Hin as [j Ej].
  destruct (settled_task sched j item Ej) as (t & _ & R & St).
  assert (F : findById m0 (dish item) = Some (id, d0)) by (by apply findById_Some).
  destruct t as [it|it k dk|e|it dk]; try discriminate; cbn in St.
  - destruct St as [Hsame Hres]. rewrite F in Hsame.
    apply findById_Some in Hsame as [_ ->].
    unfold reservation in Hres. rewrite F in Hres.
    by destruct (inventory d0 <? quantity item).
  - destruct St as (-> & k & Hres & Hk).
    unfold reservation in Hres. rewrite F in Hres.
    destruct (inventory d0 <? quantity item); [done|].
    by injection Hres as <- <-.
Qed.

Lemma distinct_failure_reported (sched : list nat) :
  calls (promise_all sched m0 items) <> []
  <-> exists item, item ∈ items /\ reservation m0 item = None.
Proof.
  pose proof (hook_inv_promise_all m0 items sched) as Hinv.
  pose proof (distinct_inv_promise_all sched) as Hd.
  split.
  - intros Hne. destruct (calls (promise_all sched m0 items)) as [|c cs] eqn:Ec; [done|].
    assert (Hc : c ∈ omap reported (tasks (promise_all sched m0 items))).
    { rewrite <- (inv_calls _ _ _ Hinv), Ec. apply elem_of_cons. by left. }
    apply list_elem_of_omap in Hc as (t & Ht & Hr).
    apply list_elem_of_lookup in Ht as [j Ej].
    assert (Hj : (j < length items)%nat).
    { rewrite <- (dinv_length _ _ _ Hd). by eapply lookup_lt_Some. }
    destruct (lookup_lt_is_Some_2 _ _ Hj) as [item Ei].
    exists item. split; [by eapply list_elem_of_lookup_2|].
    pose proof (dinv_tasks _ _ _ Hd j item t Ei Ej) as St.
    destruct t; try discriminate. by destruct St.
  - intros (item & Hin & Hres) Hnil.
    apply list_elem_of_lookup in Hin as [j Ej].
    destruct (settled_task sched j item Ej) as (t & Et & R & St).
    destruct t as [it|it k dk|e|it dk]; try discriminate; cbn in St.
    + assert (Hc : Some e ∈ omap reported (tasks (promise_all sched m0 items))).
      { apply list_elem_of_omap. exists (Bailed e). split; [|done].
        by eapply list_elem_of_lookup_2. }
      rewrite <- (inv_calls _ _ _ Hinv), Hnil in Hc. by apply not_elem_of_nil in Hc.
    + destruct St as (_ & k & Hk & _). congruence.
Qed.

End DistinctDishes.

Lemma save_new_result (zone : TimeZone) (now : Z) (sched : list nat) (isMod : bool)
    (this : Order) (s : Store) :
  validate zone now this = [] ->
  let h := promise_all sched (dishStore s) (dishes this) in
  (calls h = [] /\ exists o s', save zone now sched true isMod this s = (Saved o, s')
                               /\ dishStore s' = db h)
  \/ (exists e cs, calls h = Some e :: cs
        /\ save zone now sched true isMod this s
           = (HookFailed e, {| dishStore := db h; orderStore := orderStore s |})).
Proof.
  intros Hv h. unfold save. rewrite Hv. unfold pre_save. rewrite orb_true_r.
  fold h. cbn [calls call_next db].
  destruct (calls h) as [|c cs] eqn:Ec.
  - left. split; [done|]. cbn. eauto.
  - right. destruct (calls_are_errors (dishStore s) (dishes this) h c) as [e ->].
    + apply hook_inv_promise_all.
    + rewrite Ec. apply elem_of_cons. by left.
    + exists e, cs. done.
Qed.

(** C1 (as the code has it).  A new order whose line items name distinct
    dishes: each line item is decided on its own.  A dish whose line item
    passes the stock check ends decremented by the quantity, whether or not
    another line item fails; a dish whose line item fails keeps its
    inventory; dishes outside the order are untouched.  The save fails with
    a hook error exactly when some line item fails, and the order is then not
    stored.  Nothing is released. *)
Theorem no_release_on_failure (zone : TimeZone) (now : Z) (sched : list nat)
    (isMod : bool) (this : Order) (s : Store) :
  validate zone now this = [] ->
  NoDup (dish <$> dishes this) ->
  let r := save zone now sched true isMod this s in
  (forall item id d0,
      item ∈ dishes this -> dish item = Some id -> dishStore s !! id = Some d0 ->
      dishStore (snd r) !! id
      = Some (if inventory d0 <? quantity item then d0
              else set_inventory (inventory d0 - quantity item) d0))
  /\ (forall id, Some id ∉ dish <$> dishes this ->
                 dishStore (snd r) !! id = dishStore s !! id)
  /\ ((exists e, fst r = HookFailed e)
      <-> exists item, item ∈ dishes this /\ reservation (dishStore s) item = None)
  /\ ((exists e, fst r = HookFailed e) -> orderStore (snd r) = orderStore s).
Proof.
  intros Hv Hnd r.
  pose proof (distinct_inv_promise_all (dishStore s) (dishes this) Hnd sched) as Hd.
  pose proof (distinct_failure_reported (dishStore s) (dishes this) Hnd sched) as Hrep.
  assert (Hdb : dishStore (snd r) = db (promise_all sched (dishStore s) (dishes this))).
  { subst r. destruct (save_new_result zone now sched isMod this s Hv)
      as [(_ & o & s' & -> & E)|(e & cs & _ & ->)]; done. }
  split; [|split; [|split]].
  - intros item id d0 Hin Hdish Hm. rewrite Hdb. by apply distinct_final_stock.
  - intros id Hid. rewrite Hdb. by apply (dinv_frame _ _ _ Hd).
  - rewrite <- Hrep. subst r.
    destruct (save_new_result zone now sched isMod this s Hv)
      as [(Hc & o & s' & -> & E)|(e & cs & Hc & ->)]; cbn.
    + split; [intros [e [=]]|]. by rewrite Hc.
    + split; [by rewrite Hc|]. eauto.
  - subst r.
    destruct (save_new_result zone now sched isMod this s Hv)
      as [(Hc & o & s' & -> & E)|(e & cs & Hc & ->)]; cbn; [|done].
    intros [e [=]].
Qed.

(** ** Callbacks that run one after another *)

Lemma insert_middle {A} (l1 l2 : list A) (x y : A) :
  <[length l1 := y]> (l1 ++ x :: l2) = l1 ++ y :: l2.
Proof.
  rewrite insert_app_r_alt by lia. by rewrite Nat.sub_diag.
Qed.

(** One callback from its start to its return, with nothing in between. *)
Lemma step_twice_alone (pre rest : list Task) (item : LineItem)
    (m : gmap ObjectId Dish) (tot : Number) (cs : list (option HookError))
    (sv : list SaveEvent) :
  step (length pre) (step (length pre)
    {| db := m; tasks := pre ++ AwaitFind item :: rest; total := tot;
       calls := cs; saves := sv |})
  = match reservation m item with
    | Some (id, d) =>
        {| db := <[id := d]> m; tasks := pre ++ Fulfilled item d :: rest;
           total := fadd tot (fmul (price d) (of_Z (quantity item))); calls := cs;
           saves := sv ++ [{| saved_dish := id; saved_quantity := quantity item;
                              saved_inventory := inventory d |}] |}
    | None =>
        {| db := m; tasks := pre ++ Bailed (failure m item) :: rest; total := tot;
           calls := cs ++ [Some (failure m item)]; saves := sv |}
    end.
Proof.
  unfold reservation, failure.
  unfold step at 2. cbn [tasks]. rewrite list_lookup_middle by done.
  cbn [resume db].
  destruct (findById m (dish item)) as [[id d]|] eqn:F.
  - destruct (inventory d <? quantity item) eqn:L.
    + unfold set_task, call_next. cbn. rewrite insert_middle.
      unfold step. cbn [tasks]. rewrite list_lookup_middle by done.
      unfold set_task. cbn. by rewrite insert_middle.
    + unfold set_task. cbn. rewrite insert_middle.
      unfold step. cbn [tasks]. rewrite list_lookup_middle by done.
      unfold set_task. cbn. rewrite insert_middle.
      apply findById_Some in F as [_ Fm]. by rewrite (Dish_save_read _ _ _ _ Fm).
  - unfold set_task, call_next. cbn. rewrite insert_middle.
    unfold step. cbn [tasks]. rewrite list_lookup_middle by done.
    unfold set_task. cbn. by rewrite insert_middle.
Qed.

Lemma count_app (p : Task -> bool) (l1 l2 : list Task) :
  count p (l1 ++ l2) = (count p l1 + count p l2)%nat.
Proof. induction l1 as [|t l1 IH]; cbn; [done|]. rewrite IH. lia. Qed.

Lemma one_by_one_units (id : ObjectId) (dname : string) (pr : Number) (n : nat) :
  forall (pre : list Task) (m : gmap ObjectId Dish) (inv : nat) (tot : Number)
         (cs : list (option HookError)) (sv : list SaveEvent),
    m !! id = Some {| name := dname; price := pr; inventory := Z.of_nat inv |} ->
    let h := run (flat_map (fun i => [i; i]) (seq (length pre) n))
                 {| db := m; tasks := pre ++ replicate n (AwaitFind (one_unit id));
                    total := tot; calls := cs; saves := sv |} in
    count fulfilled (tasks h) = (count fulfilled pre + Nat.min n inv)%nat
    /\ count bailed (tasks h) = (count bailed pre + (n - inv))%nat
    /\ calls h = cs ++ replicate (n - inv) (Some (NotEnoughInventory dname))
    /\ db h !! id
       = Some {| name := dname; price := pr; inventory := Z.of_nat (inv - n) |}.
Proof.
  induction n as [|n IH]; intros pre m inv tot cs sv Hm.
  - cbn. rewrite !app_nil_r, Nat.sub_0_r. rewrite !Nat.add_0_r. done.
  - cbn [seq flat_map app run fold_left replicate].
    change (fold_left (fun h i => step i h) ?l ?h) with (run l h).
    rewrite step_twice_alone.
    assert (F : findById m (dish (one_unit id))
                = Some (id, {| name := dname; price := pr;
                               inventory := Z.of_nat inv |})).
    { apply findById_Some. done. }
    unfold reservation, failure. rewrite F. cbn [inventory quantity one_unit name].
    destruct inv as [|inv].
    + (* out of stock: the callback calls [next] with the error *)
      replace (Z.of_nat 0 <? 1) with true by done.
      specialize (IH (pre ++ [Bailed (NotEnoughInventory dname)]) m 0%nat tot
                     (cs ++ [Some (NotEnoughInventory dname)]) sv Hm).
      rewrite length_app, Nat.add_1_r in IH. cbn [length] in IH.
      rewrite <- app_assoc in IH. cbn [app] in IH.
      destruct IH as (I1 & I2 & I3 & I4).
      rewrite I1, I2, I3, I4, !count_app. cbn.
      rewrite Nat.min_0_r, !Nat.sub_0_r. rewrite <- app_assoc. cbn.
      repeat split; lia.
    + replace (Z.of_nat (S inv) <? 1) with false by (symmetry; apply Z.ltb_ge; lia).
      set (d' := set_inventory (Z.of_nat (S inv) - 1)
                   {| name := dname; price := pr; inventory := Z.of_nat (S inv) |}).
      assert (Hd' : d' = {| name := dname; price := pr; inventory := Z.of_nat inv |}).
      { unfold d', set_inventory. cbn. f_equal. lia. }
      specialize (IH (pre ++ [Fulfilled (one_unit id) d']) (<[id := d']> m) inv
                     (fadd tot (fmul (price d') (of_Z 1))) cs
                     (sv ++ [{| saved_dish := id; saved_quantity := 1;
                                saved_inventory := inventory d' |}])).
      rewrite length_app, Nat.add_1_r in IH. cbn [length] in IH.
      rewrite <- app_assoc in IH. cbn [app] in IH.
      destruct IH as (I1 & I2 & I3 & I4).
      { rewrite lookup_insert_eq. by rewrite Hd'. }
      rewrite I1, I2, I3, I4, !count_app. cbn.
      repeat split; lia.
Qed.

(** C2 (as the code has it).  When the attempts do not overlap, each one
    reading and writing before the next one starts, [M] attempts of one unit
    on a dish with inventory [N < M] give exactly [N] successes and [M - N]
    failures for lack of inventory, and leave the inventory at 0. *)
Theorem attempts_one_after_another (m : gmap ObjectId Dish) (id : ObjectId)
    (d : Dish) (N M : nat) :
  m !! id = Some d -> inventory d = Z.of_nat N -> (N < M)%nat ->
  let h := promise_all [] m (replicate M (one_unit id)) in
  count fulfilled (tasks h) = N
  /\ count bailed (tasks h) = (M - N)%nat
  /\ calls h = replicate (M - N) (Some (NotEnoughInventory (name d)))
  /\ inventory <$> db h !! id = Some 0.
Proof.
  intros Hm Hinv Hlt h. subst h. unfold promise_all, one_by_one.
  cbn [run fold_left]. unfold start. cbn [tasks].
  rewrite length_map, length_replicate, fmap_replicate.
  destruct d as [dname pr inv0]. cbn in Hinv. subst inv0.
  destruct (one_by_one_units id dname pr M [] m N (of_Z 0) [] [] Hm)
    as (I1 & I2 & I3 & I4).
  cbn [length app] in *. rewrite I1, I2, I3, I4. cbn.
  repeat split; try lia. do 2 f_equal. lia.
Qed.

(** ** Validation *)

Lemma validate_dishes_nil (i : nat) (items : list LineItem) :
  validate_dishes i items = [] <-> Forall (fun item => dish item <> None) items.
Proof.
  revert i. induction items as [|x l IH]; intros i; cbn.
  - split; [constructor|done].
  - rewrite Forall_cons, <- (IH (S i)). destruct (dish x); cbn.
    + split; [by intros ->|by intros [_ ->]].
    + split; [discriminate|]. by intros [? _].
Qed.

Lemma validate_dishes_quantities (f : Z -> Z) (i : nat) (items : list LineItem) :
  validate_dishes i
    (map (fun item => {| dish := dish item; quantity := f (quantity item) |}) items)
  = validate_dishes i items.
Proof.
  revert i. induction items as [|x l IH]; intros i; cbn; [done|]. by rewrite IH.
Qed.

Lemma validate_type_nil (t : option string) :
  validate_type t = [] <-> forall value, t = Some value -> value = "Point".
Proof.
  unfold validate_type. destruct t as [value|].
  - destruct (String.eqb_spec value "Point") as [->|Hne]; split; try done.
    + by intros _ ? [= <-].
    + intros H. by destruct (Hne (H value eq_refl)).
  - split; [|done]. by intros _ ? [=].
Qed.

Lemma required_string_false (v : option string) :
  required_string v = false <-> exists a, v = Some a /\ a <> "".
Proof.
  unfold required_string. destruct v as [a|].
  - destruct (String.eqb_spec a "") as [->|Hne]; split; try done.
    + by intros (a & [= <-] & H).
    + eauto.
  - split; [done|]. by intros (a & H & _).
Qed.

Lemma validate_nil (zone : TimeZone) (now : Z) (o : Order) :
  validate zone now o = []
  <-> user o <> None
      /\ Forall (fun item => dish item <> None) (dishes o)
      /\ orderScheduled_validator zone now now (orderScheduled o) = true
      /\ (forall value, type (location o) = Some value -> value = "Point")
      /\ (isSelfCollection o = false ->
          coordinates (location o) <> None
          /\ exists a, address (location o) = Some a /\ a <> "").
Proof.
  unfold validate.
  rewrite !app_nil, (validate_dishes_nil 0), validate_type_nil.
  rewrite <- required_string_false. unfold required_array.
  destruct (user o), (orderScheduled_validator zone now now (orderScheduled o)),
    (isSelfCollection o), (coordinates (location o)),
    (required_string (address (location o))); cbn;
    split; try done; try (intros (? & ? & ? & ? & ?); done);
    try (intros (? & ? & ? & ? & ? & ?); done);
    intros (? & ? & ? & ? & Hl); destruct (Hl eq_refl); done.
Qed.


(** ** Updates *)

Lemma updateById_Ok (zone : TimeZone) (now : Z) (id : ObjectId) (u : OrderUpdate)
    (s s' : Store) (o : Order) :
  updateById (Order_findByIdAndUpdate zone now) id u s = (Ok o, s') ->
  exists old, orderStore s !! id = Some old
              /\ validate_update zone now u = []
              /\ o = apply_update u old
              /\ s' = {| dishStore := dishStore s;
                         orderStore := <[id := o]> (orderStore s) |}.
Proof.
  unfold updateById, Order_findByIdAndUpdate.
  destruct (validate_update zone now u); [|discriminate].
  destruct (orderStore s !! id) as [old|]; [|discriminate].
  intros [= <- <-]. eauto.
Qed.

Lemma validate_update_nil (zone : TimeZone) (now : Z) (u : OrderUpdate) :
  validate_update zone now u = []
  <-> (forall items, u_dishes u = Some items ->
                     Forall (fun item => dish item <> None) items)
      /\ (forall v, u_orderScheduled u = Some v ->
                    orderScheduled_validator zone now now v = true)
      /\ (forall l, u_location u = Some l ->
                    (forall value, type l = Some value -> value = "Point")
                    /\ coordinates l <> None
                    /\ exists a, address l = Some a /\ a <> "").
Proof.
  unfold validate_update. rewrite !app_nil.
  assert (H1 : match u_dishes u with
               | Some items => validate_dishes 0 items
               | None => []
               end = []
               <-> forall items, u_dishes u = Some items ->
                                 Forall (fun item => dish item <> None) items).
  { destruct (u_dishes u) as [items|].
    - rewrite validate_dishes_nil. split; [by intros H ? [= <-]|eauto].
    - split; [by intros _ ? [=]|done]. }
  assert (H2 : match u_orderScheduled u with
               | Some v => if orderScheduled_validator zone now now v
                           then [] else [path_orderScheduled]
               | None => []
               end = []
               <-> forall v, u_orderScheduled u = Some v ->
                             orderScheduled_validator zone now now v = true).
  { destruct (u_orderScheduled u) as [v|].
    - destruct (orderScheduled_validator zone now now v) eqn:E; split; try done.
      + by intros _ ? [= <-].
      + intros H. specialize (H v eq_refl). congruence.
    - split; [by intros _ ? [=]|done]. }
  rewrite H1, H2. clear H1 H2.
  destruct (u_location u) as [l|].
  - rewrite !app_nil, validate_type_nil. unfold required_array. split.
    + intros (Hd & Hv & Ht & Hc & Ha). split; [done|]. split; [done|].
      intros ? [= <-]. split; [done|]. split.
      * by destruct (coordinates l).
      * apply required_string_false. by destruct (required_string (address l)).
    + intros (Hd & Hv & Hl). destruct (Hl l eq_refl) as (Ht & Hc & Ha).
      apply required_string_false in Ha. rewrite Ha.
      by destruct (coordinates l).
  - split.
    + intros (? & ? & _). repeat split; done.
    + intros (? & ? & _). done.
Qed.

(** ** Line items are not merged *)

(** C5 (as the code has it).  The hook makes one reservation per submitted
    line item and merges nothing: the stored [dishes] are the submitted ones,
    and when the hook calls only the final [next()], the dish writes are, up
    to their order, exactly the submitted line items, each with its own dish
    and quantity. *)
Theorem line_items_reserved_separately (sched : list nat) (m : gmap ObjectId Dish)
    (isMod : bool) (this : Order) :
  calls (fst (pre_save sched m true isMod this)) = [None] ->
  dishes (snd (pre_save sched m true isMod this)) = dishes this
  /\ event_item <$> saves (fst (pre_save sched m true isMod this)) ≡ₚ dishes this
  /\ length (saves (fst (pre_save sched m true isMod this))) = length (dishes this).
Proof.
  unfold pre_save. rewrite orb_true_r. cbn [fst snd calls call_next saves].
  intros Hc. split; [done|].
  assert (Hnil : calls (promise_all sched m (dishes this)) = []).
  { destruct (calls (promise_all sched m (dishes this))) as [|c [|c' cs]];
      [done|discriminate|discriminate]. }
  pose proof (no_failure_summary sched m (dishes this) Hnil) as Hp.
  split; [exact Hp|].
  rewrite <- (Permutation_length Hp). by rewrite length_fmap.
Qed.

(** ** Validation comes first *)

(** C7 (as the code has it).  A document that fails a schema validator (no
    user, a line item without a dish, a scheduled time outside the window, a
    location type other than ['Point'], and, when it is not self-collection,
    coordinates that are null or an address that is missing or empty) is
    rejected with the failing paths, and neither collection changes.  The
    document is valid exactly when no such validator fails.  Coordinates
    that the request leaves out are the empty array in the document, which
    passes, so an order is never rejected for them.  Quantities play no part
    in validation. *)
Theorem validation_before_side_effects (zone : TimeZone) (now : Z) (sched : list nat)
    (isNew isMod : bool) (this : Order) (s : Store) :
  (validate zone now this <> [] ->
   save zone now sched isNew isMod this s
   = (ValidationFailed (validate zone now this), s))
  /\ (validate zone now this = []
      <-> user this <> None
          /\ Forall (fun item => dish item <> None) (dishes this)
          /\ orderScheduled_validator zone now now (orderScheduled this) = true
          /\ (forall value, type (location this) = Some value -> value = "Point")
          /\ (isSelfCollection this = false ->
              coordinates (location this) <> None
              /\ exists a, address (location this) = Some a /\ a <> ""))
  /\ (forall id data,
         coordinates (location (new_Order zone now id data))
         = Some (default [] (d_coordinates data))
         /\ (path_location_coordinates ∉ validate zone now (new_Order zone now id data)))
  /\ (forall f, validate zone now (map_quantities f this) = validate zone now this).
Proof.
  split; [|split; [|split]].
  - intros Hne. unfold save. by destruct (validate zone now this).
  - apply validate_nil.
  - intros id data. split; [done|].
    unfold validate, required_array. cbn [location new_Order coordinates is_absent].
    rewrite andb_false_r, !elem_of_app.
    intros [Hp|[Hp|[Hp|[Hp|[Hp|Hp]]]]].
    + destruct (is_absent _); [|by apply not_elem_of_nil in Hp].
      by apply list_elem_of_singleton in Hp.
    + revert Hp. generalize 0%nat.
      induction (dishes _) as [|x l IH]; intros n Hp; cbn in Hp.
      * by apply not_elem_of_nil in Hp.
      * apply elem_of_app in Hp as [Hp|Hp]; [|by eapply IH].
        destruct (is_absent (dish x)); [|by apply not_elem_of_nil in Hp].
        by apply list_elem_of_singleton in Hp.
    + destruct (orderScheduled_validator _ _ _ _); [by apply not_elem_of_nil in Hp|].
      by apply list_elem_of_singleton in Hp.
    + unfold validate_type in Hp. destruct (type _) as [v|];
        [|by apply not_elem_of_nil in Hp].
      destruct (String.eqb v "Point"); [by apply not_elem_of_nil in Hp|].
      by apply list_elem_of_singleton in Hp.
    + by apply not_elem_of_nil in Hp.
    + destruct (_ && _); [|by apply not_elem_of_nil in Hp].
      by apply list_elem_of_singleton in Hp.
  - intros f. unfold validate, map_quantities. cbn.
    by rewrite validate_dishes_quantities.
Qed.

(** ** Updates after creation *)


(** ** [DataAccess.create] *)

(** C10 (as the code has it).  The guard before the assignment is a test of
    truthiness.  When the document the model created has a truthy
    [password], the document returned has [password] undefined and every
    other path as created.  When [password] is falsy the document is
    returned as created: a document that carries the password [""] (or 0,
    false or null) is returned with it, against the comment on the
    assignment, which wants the password never returned. *)
Theorem create_returns_falsy_password
    (models : string -> option (gmap string JSValue -> Result (gmap string JSValue)))
    (modelName : string) (data : gmap string JSValue)
    (Model_create : gmap string JSValue -> Result (gmap string JSValue))
    (document : gmap string JSValue) :
  models modelName = Some Model_create ->
  Model_create data = Ok document ->
  (ToBoolean (get document "password") = true ->
   exists returned_document,
     create models modelName data = Ok returned_document
     /\ get returned_document "password" = JUndefined
     /\ forall key, key <> "password" -> returned_document !! key = document !! key)
  /\ (ToBoolean (get document "password") = false ->
      create models modelName data = Ok document)
  /\ (forall v,
         document !! "password" = Some v -> v <> JUndefined -> ToBoolean v = false ->
         exists returned_document,
           create models modelName data = Ok returned_document
           /\ get returned_document "password" = v
           /\ get returned_document "password" <> JUndefined).
Proof.
  intros Hm Hc. unfold create. rewrite Hm, Hc. split; [|split].
  - intros Hp. rewrite Hp. eexists. split; [done|]. split.
    + unfold get. by rewrite lookup_insert_eq.
    + intros key Hk. by rewrite lookup_insert_ne.
  - intros Hp. by rewrite Hp.
  - intros v Hv Hne Hp. unfold get at 1. rewrite Hv. cbn [default from_option id].
    rewrite Hp. exists document. split; [done|]. unfold get. rewrite Hv. done.
Qed.

(** ** The claims on the sample data *)

(** C1, as stated, fails: the order [(A, 3), (B, 1000)] is refused for lack
    of B, and A, which had 10, is left at 7; whether the callbacks run one
    after the other or both read before A is written. *)
Lemma partial_decrement_observed :
  let data := request [line dish_A 3; line dish_B 1000] false in
  let r1 := Order_create utc 0 [] 100%N data shop in
  let r2 := Order_create utc 0 (reads_then_writes 2) 100%N data shop in
  inventory <$> dishStore shop !! dish_A = Some 10
  /\ fst r1 = HookFailed (NotEnoughInventory "B")
  /\ inventory <$> dishStore (snd r1) !! dish_A = Some 7
  /\ fst r2 = HookFailed (NotEnoughInventory "B")
  /\ inventory <$> dishStore (snd r2) !! dish_A = Some 7.
Proof. vm_compute. repeat split; reflexivity. Qed.

Lemma no_release_on_failure_witness :
  let this := new_Order utc 0 100%N (request [line dish_A 3; line dish_B 1000] false) in
  let r := save utc 0 (reads_then_writes 2) true false this shop in
  validate utc 0 this = []
  /\ NoDup (dish <$> dishes this)
  /\ dishStore (snd r) !! dish_A
     = Some {| name := "A"; price := of_Z 10; inventory := 7 |}
  /\ dishStore (snd r) !! dish_B
     = Some {| name := "B"; price := of_Z 5; inventory := 5 |}.
Proof.
  intros this r.
  assert (Hv : validate utc 0 this = []) by (vm_compute; reflexivity).
  assert (Hnd : NoDup (dish <$> dishes this)).
  { eapply bool_decide_unpack. vm_compute. exact I. }
  pose proof (no_release_on_failure utc 0 (reads_then_writes 2) false this shop Hv Hnd)
    as (H & _).
  split; [exact Hv|]. split; [exact Hnd|]. split.
  - apply (H {| dish := Some dish_A; quantity := 3 |} dish_A
             {| name := "A"; price := of_Z 10; inventory := 10 |}).
    + vm_compute. apply list_elem_of_In. left. reflexivity.
    + reflexivity.
    + vm_compute. reflexivity.
  - apply (H {| dish := Some dish_B; quantity := 1000 |} dish_B
             {| name := "B"; price := of_Z 5; inventory := 5 |}).
    + vm_compute. apply list_elem_of_In. right. left. reflexivity.
    + reflexivity.
    + vm_compute. reflexivity.
Defined.

(** C2, as stated, fails: one unit of A is left and two attempts of one
    unit each read before either writes; both succeed, none fails, and the
    inventory ends at 0. *)
Lemma overlapping_attempts_oversell :
  let h := promise_all (reads_then_writes 2) last_unit
                       [one_unit dish_A; one_unit dish_A] in
  inventory <$> last_unit !! dish_A = Some 1
  /\ count fulfilled (tasks h) = 2%nat
  /\ count bailed (tasks h) = 0%nat
  /\ calls h = []
  /\ inventory <$> db h !! dish_A = Some 0.
Proof. vm_compute. repeat split; reflexivity. Qed.

Lemma attempts_one_after_another_witness :
  let h := promise_all [] last_unit (replicate 2 (one_unit dish_A)) in
  count fulfilled (tasks h) = 1%nat
  /\ count bailed (tasks h) = 1%nat
  /\ calls h = [Some (NotEnoughInventory "A")]
  /\ inventory <$> db h !! dish_A = Some 0.
Proof.
  apply (attempts_one_after_another last_unit dish_A
           {| name := "A"; price := of_Z 10; inventory := 1 |} 1 2).
  - vm_compute. reflexivity.
  - reflexivity.
  - lia.
Defined.

(** C3, as stated, fails.  A dish priced 9007199254740991, three of them,
    for delivery: the sum of price times quantity plus 30 is
    27021597764223003, and the total stored is 27021597764223000, since the
    product and then the sum are rounded.  And with the prices 0.1, 0.2 and
    0.3 the total of one and the same order depends on the order in which the
    callbacks complete: 0.6000000000000001 when they complete in turn, 0.6
    when the first callback completes last. *)
Lemma total_price_is_rounded :
  (exists o,
      fst (Order_create utc 0 [] 100%N (request [line dish_A 3] false)
             {| dishStore := dear_menu; orderStore := ∅ |}) = Saved o
      /\ integer_value (totalPrice o) = Some 27021597764223000
      /\ order_sum dear_menu (dishes o) + 30 = 27021597764223003)
  /\ (exists o1 o2,
         let data := request [line 1%N 1; line 2%N 1; line 3%N 1] true in
         let s := {| dishStore := decimal_menu; orderStore := ∅ |} in
         fst (Order_create utc 0 [] 100%N data s) = Saved o1
         /\ fst (Order_create utc 0 [1; 1; 2; 2; 0; 0]%nat 100%N data s) = Saved o2
         /\ dishes o1 = dishes o2
         /\ totalPrice o1 = Finite 5404319552844596 (-53)
         /\ totalPrice o2 = Finite 5404319552844595 (-53)).
Proof.
  split.
  - eexists. split; [vm_compute; reflexivity|]. split; vm_compute; reflexivity.
  - eexists _, _. cbv zeta.
    split; [vm_compute; reflexivity|]. split; [vm_compute; reflexivity|].
    split; [reflexivity|]. split; reflexivity.
Qed.

Lemma menu_integer_prices : integer_prices menu.
Proof.
  unfold menu. apply map_Forall_insert_2.
  { exists 10. split; [reflexivity|]. unfold safe_integer. cbn. lia. }
  apply map_Forall_insert_2.
  { exists 5. split; [reflexivity|]. unfold safe_integer. cbn. lia. }
  apply map_Forall_empty.
Qed.

Lemma total_price_formula_witness :
  (exists o s',
      Order_create utc 0 [] 100%N (request [line dish_A 2; line dish_B 1] false) shop
      = (Saved o, s')
      /\ order_sum menu (dishes o) + 30 = 55
      /\ totalPrice o = of_Z (order_sum menu (dishes o) + 30)
      /\ integer_value (totalPrice o) = Some (order_sum menu (dishes o) + 30))
  /\ (exists o s',
         Order_create utc 0 [] 100%N (request [line dish_A 2; line dish_B 1] true) shop
         = (Saved o, s')
         /\ order_sum menu (dishes o) + 0 = 25
         /\ totalPrice o = of_Z (order_sum menu (dishes o) + 0)
         /\ integer_value (totalPrice o) = Some (order_sum menu (dishes o) + 0)).
Proof.
  split.
  - eexists _, _. split; [vm_compute; reflexivity|]. split; [vm_compute; reflexivity|].
    refine (proj1 (proj2 (proj2 (total_price_formula utc 0 [] 100%N
              (request [line dish_A 2; line dish_B 1] false) shop _ _ _))) _ _ _).
    + vm_compute. reflexivity.
    + exact menu_integer_prices.
    + repeat constructor; unfold safe_integer; cbn; lia.
    + vm_compute. reflexivity.
  - eexists _, _. split; [vm_compute; reflexivity|]. split; [vm_compute; reflexivity|].
    refine (proj1 (proj2 (proj2 (total_price_formula utc 0 [] 100%N
              (request [line dish_A 2; line dish_B 1] true) shop _ _ _))) _ _ _).
    + vm_compute. reflexivity.
    + exact menu_integer_prices.
    + repeat constructor; unfold safe_integer; cbn; lia.
    + vm_compute. reflexivity.
Defined.



(** C5, as stated, fails: for the line items [(A, 2), (A, 3)] the hook
    keeps both line items and saves A twice, once for 2 and once for 3,
    whether the callbacks run one after the other or both read before the
    first write (and then the second write overwrites the first); no save
    takes 5. *)
Lemma duplicate_lines_not_merged :
  let this := new_Order utc 0 100%N (request [line dish_A 2; line dish_A 3] false) in
  let r1 := pre_save [] menu true false this in
  let r2 := pre_save (reads_then_writes 2) menu true false this in
  dishes (snd r1) = [{| dish := Some dish_A; quantity := 2 |};
                     {| dish := Some dish_A; quantity := 3 |}]
  /\ saves (fst r1)
     = [{| saved_dish := dish_A; saved_quantity := 2; saved_inventory := 8 |};
        {| saved_dish := dish_A; saved_quantity := 3; saved_inventory := 5 |}]
  /\ saves (fst r2)
     = [{| saved_dish := dish_A; saved_quantity := 2; saved_inventory := 8 |};
        {| saved_dish := dish_A; saved_quantity := 3; saved_inventory := 7 |}]
  /\ ~ (exists inv, saves (fst r1)
                    = [{| saved_dish := dish_A; saved_quantity := 5;
                          saved_inventory := inv |}])
  /\ ~ (exists inv, saves (fst r2)
                    = [{| saved_dish := dish_A; saved_quantity := 5;
                          saved_inventory := inv |}]).
Proof.
  vm_compute. split; [reflexivity|]. split; [reflexivity|]. split; [reflexivity|].
  split; intros [inv H]; discriminate H.
Qed.

Lemma line_items_reserved_separately_witness :
  let this := new_Order utc 0 100%N (request [line dish_A 2; line dish_A 3] false) in
  calls (fst (pre_save [] menu true false this)) = [None]
  /\ length (saves (fst (pre_save [] menu true false this))) = 2%nat.
Proof.
  intros this.
  assert (Hc : calls (fst (pre_save [] menu true false this)) = [None])
    by (vm_compute; reflexivity).
  split; [exact Hc|].
  exact (proj2 (proj2 (line_items_reserved_separately [] menu false this Hc))).
Defined.

Lemma menu_stock_ok : stock_ok menu.
Proof.
  unfold menu. apply map_Forall_insert_2; [cbn; lia|].
  apply map_Forall_insert_2; [cbn; lia|]. apply map_Forall_empty.
Qed.

Lemma inventory_never_negative_witness :
  stock_ok (db (run [0; 1; 1]%nat
                    (start menu [{| dish := Some dish_A; quantity := 2 |};
                                 {| dish := Some dish_A; quantity := 9 |}]))).
Proof.
  apply (proj1 (inventory_never_negative menu menu_stock_ok)).
Defined.

(** C7, as stated, fails: an order for -2 units of A, and one for 0 units,
    pass validation and are saved; the first raises A from 10 to 12 and
    takes 20 off the total. *)
Lemma nonpositive_quantity_accepted :
  let r := Order_create utc 0 [] 100%N (request [line dish_A (-2)] false) shop in
  let r0 := Order_create utc 0 [] 100%N (request [line dish_A 0] false) shop in
  (exists o, fst r = Saved o /\ totalPrice o = of_Z 10
             /\ orderStore (snd r) !! 100%N = Some o)
  /\ inventory <$> dishStore (snd r) !! dish_A = Some 12
  /\ (exists o, fst r0 = Saved o /\ orderStore (snd r0) !! 100%N = Some o).
Proof.
  vm_compute. split; [|split].
  - eexists. repeat split; reflexivity.
  - reflexivity.
  - eexists. repeat split; reflexivity.
Qed.

Lemma validation_before_side_effects_witness :
  let this := new_Order utc 0 100%N
                (request [{| d_dish := None; d_quantity := Some 1 |}] false) in
  validate utc 0 this <> []
  /\ save utc 0 [] true false this shop = (ValidationFailed [path_dishes_dish 0], shop).
Proof.
  intros this.
  assert (Hne : validate utc 0 this <> []) by (vm_compute; discriminate).
  split; [exact Hne|].
  exact (proj1 (validation_before_side_effects utc 0 [] true false this shop) Hne).
Defined.





Lemma create_returns_falsy_password_witness :
  let data : gmap string JSValue :=
    <["name" := JString "bob"]> (<["password" := JString ""]> ∅) in
  data !! "password" = Some (JString "")
  /\ exists returned_document,
       create plain_models "User" data = Ok returned_document
       /\ get returned_document "password" = JString ""
       /\ get returned_document "password" <> JUndefined.
Proof.
  intros data.
  assert (Hp : data !! "password" = Some (JString "")) by reflexivity.
  split; [exact Hp|].
  apply (proj2 (proj2 (create_returns_falsy_password plain_models "User" data
                         (fun d => Ok d) data eq_refl eq_refl)) (JString "") Hp).
  - discriminate.
  - reflexivity.
Defined.

(** * Further properties of the hook *)

(** An invariant scheme: [R] relates the document a dish had at the start to
    the one it has now, [Q] holds of the line items, a reservation that
    passes the stock check keeps [R], and so does writing the inventory of one
    related document into another. *)
Section BasedOn.
Variable R : Dish -> Dish -> Prop.
Variable Q : LineItem -> Prop.
Variable m0 : gmap ObjectId Dish.
Hypothesis R_reserve :
  forall item d0 d, Q item -> R d0 d -> quantity item <= inventory d ->
                    R d0 (set_inventory (inventory d - quantity item) d).
Hypothesis R_write :
  forall d0 d1 d2, R d0 d1 -> R d0 d2 -> R d0 (set_inventory (inventory d2) d1).

Lemma based_on_step (i : nat) (h : Hook) :
  based_on R m0 h /\ Forall (asks Q) (tasks h) ->
  based_on R m0 (step i h) /\ Forall (asks Q) (tasks (step i h)).
Proof.
  intros [(Hnew & Hold & Hpend) Hq].
  apply step_cases.
  - done.
  - intros item E F. split; [split; [|split]|]; cbn; try done;
      by apply Forall_insert.
  - intros item id d E F L. split; [split; [|split]|]; cbn; try done;
      by apply Forall_insert.
  - intros item id d E F L. apply findById_Some in F as [Fd Fm].
    pose proof (Forall_lookup_1 _ _ _ _ Hq E) as Hitem. cbn in Hitem.
    split; [split; [|split]|]; cbn; try done.
    + apply Forall_insert; [done|].
      destruct (m0 !! id) as [d0|] eqn:E0.
      * destruct (Hold id d0 E0) as (d' & Hd' & Hr). rewrite Fm in Hd'.
        injection Hd' as <-. exists d0. split; [done|]. by apply R_reserve.
      * rewrite (Hnew id E0) in Fm. discriminate.
    + by apply Forall_insert.
  - intros item id d E.
    pose proof (Forall_lookup_1 _ _ _ _ Hpend E) as (d0 & E0 & Hr).
    split; [split; [|split]|]; cbn.
    + intros k Hk. rewrite Dish_save_lookup_ne; [by apply Hnew|]. congruence.
    + intros k dk Hk. destruct (decide (id = k)) as [<-|Hne].
      * rewrite Dish_save_lookup. destruct (Hold id dk Hk) as (dc & Hdc & Hrc).
        rewrite Hdc. cbn. eexists. split; [done|].
        destruct (quantity item =? 0); [exact Hrc|].
        apply R_write; [exact Hrc|]. congruence.
      * rewrite Dish_save_lookup_ne by done. by apply Hold.
    + by apply Forall_insert.
    + by apply Forall_insert.
  - intros t E Rt. split; [split; [|split]|]; cbn; try done;
      by rewrite (list_insert_id _ _ _ E).
Qed.

Lemma based_on_promise_all (sched : list nat) (items : list LineItem) :
  (forall d, R d d) -> Forall Q items ->
  based_on R m0 (promise_all sched m0 items).
Proof.
  intros Hrefl Hq. unfold promise_all. rewrite <- run_app.
  apply (run_invariant (fun h => based_on R m0 h /\ Forall (asks Q) (tasks h)));
    [apply based_on_step|].
  split; [split; [|split]|]; cbn.
  - done.
  - intros id d0 E. eauto.
  - apply Forall_fmap, Forall_true. done.
  - apply Forall_fmap. cbn. exact Hq.
Qed.

End BasedOn.

(** The dish collection that [save] leaves is the one it was given or the
    one the hook leaves. *)
Lemma save_dishStore (zone : TimeZone) (now : Z) (sched : list nat)
    (isNew isMod : bool) (this : Order) (s : Store) :
  dishStore (snd (save zone now sched isNew isMod this s)) = dishStore s
  \/ dishStore (snd (save zone now sched isNew isMod this s))
     = db (promise_all sched (dishStore s) (dishes this)).
Proof.
  unfold save. destruct (validate zone now this); [|by left].
  unfold pre_save. destruct (isMod || isNew); cbn [calls call_next db].
  - right. by destruct (calls _ ++ _) as [|[e|] ?].
  - left. done.
Qed.

(** X1. Saving an order never adds or removes a dish and never changes a
    dish's name or price, whatever the line items (negative quantities
    included) and however the callbacks interleave. *)
Theorem save_keeps_catalog (zone : TimeZone) (now : Z) (sched : list nat)
    (isNew isMod : bool) (this : Order) (s : Store) (id : ObjectId) :
  (dishStore s !! id = None
   <-> dishStore (snd (save zone now sched isNew isMod this s)) !! id = None)
  /\ (forall d0 d,
         dishStore s !! id = Some d0 ->
         dishStore (snd (save zone now sched isNew isMod this s)) !! id = Some d ->
         name d = name d0 /\ price d = price d0).
Proof.
  destruct (save_dishStore zone now sched isNew isMod this s) as [->| ->].
  - split; [done|]. intros d0 d E0 E. rewrite E0 in E. by injection E as <-.
  - destruct (based_on_promise_all same_entry (fun _ => True) (dishStore s))
      with (sched := sched) (items := dishes this) as (Hnew & Hold & _).
    + intros item d0 d _ [Hn Hp] _. done.
    + intros d0 d1 d2 [Hn Hp] _. done.
    + done.
    + apply Forall_true. done.
    + split.
      * split; [apply Hnew|]. intros E.
        destruct (dishStore s !! id) as [d0|] eqn:E0; [|done].
        destruct (Hold id d0 E0) as (d & Hd & _). congruence.
      * intros d0 d E0 E. destruct (Hold id d0 E0) as (d' & Hd' & Hr).
        rewrite E in Hd'. by injection Hd' as <-.
Qed.

(** X2. When no line item has a negative quantity, saving an order never
    raises the inventory of any dish, however the callbacks interleave. *)
Theorem save_never_raises_stock (zone : TimeZone) (now : Z) (sched : list nat)
    (isNew isMod : bool) (this : Order) (s : Store) (id : ObjectId) (d0 d : Dish) :
  Forall (fun item => 0 <= quantity item) (dishes this) ->
  dishStore s !! id = Some d0 ->
  dishStore (snd (save zone now sched isNew isMod this s)) !! id = Some d ->
  inventory d <= inventory d0.
Proof.
  intros Hq E0.
  destruct (save_dishStore zone now sched isNew isMod this s) as [->| ->].
  - intros E. rewrite E0 in E. injection E as <-. lia.
  - destruct (based_on_promise_all not_raised (fun item => 0 <= quantity item)
                (dishStore s))
      with (sched := sched) (items := dishes this) as (_ & Hold & _).
    + unfold not_raised. intros item d1 d2 Hi Hr Hle. cbn. lia.
    + unfold not_raised. intros d1 d2 d3 H2 H3. cbn. lia.
    + intros d1. unfold not_raised. lia.
    + exact Hq.
    + intros E. destruct (Hold id d0 E0) as (d' & Hd' & Hr).
      rewrite E in Hd'. injection Hd' as <-. exact Hr.
Qed.

(** ** A line item on a dish that does not exist *)

Lemma unknown_dish_step (m0 : gmap ObjectId Dish) (items : list LineItem)
    (i : nat) (h : Hook) :
  based_on (fun _ _ => True) m0 h ->
  Forall2 (unknown_dish_task m0) items (tasks h) ->
  Forall2 (unknown_dish_task m0) items (tasks (step i h)).
Proof.
  intros (Hnew & _ & _) Ht.
  assert (Hins : forall t t', tasks h !! i = Some t ->
            (forall item, items !! i = Some item ->
               unknown_dish_task m0 item t -> unknown_dish_task m0 item t') ->
            Forall2 (unknown_dish_task m0) items (<[i := t']> (tasks h))).
  { intros t t' E Hnext.
    destruct (Forall2_lookup_r _ _ _ _ _ Ht E) as (item & Ei & Hu).
    rewrite <- (list_insert_id items i item Ei). apply Forall2_insert; [done|].
    by apply Hnext. }
  apply step_cases; cbn.
  - done.
  - intros item E F. apply (Hins _ _ E). intros item' _ _ _. eauto.
  - intros item id d E F L. apply (Hins _ _ E). intros item' _ _ _. eauto.
  - intros item id d E F L. apply (Hins _ _ E). intros item' _ Hu Hnone.
    destruct (Hu Hnone) as [[= <-]|[e [=]]].
    apply findById_Some in F as [Fd Fm]. unfold findById in Hnone.
    rewrite Fd in Hnone. destruct (m0 !! id) eqn:E0; [discriminate|].
    rewrite (Hnew id E0) in Fm. discriminate.
  - intros item id d E. apply (Hins _ _ E). intros item' _ Hu Hnone.
    destruct (Hu Hnone) as [[=]|[e [=]]].
  - intros t E Rt. by rewrite (list_insert_id _ _ _ E).
Qed.

Lemma unknown_dish_bails (sched : list nat) (m : gmap ObjectId Dish)
    (items : list LineItem) (item : LineItem) :
  item ∈ items -> findById m (dish item) = None ->
  calls (promise_all sched m items) <> [].
Proof.
  intros Hin Hnone Hnil.
  assert (Hinv : based_on (fun _ _ => True) m (promise_all sched m items)
                 /\ Forall (asks (fun _ => True)) (tasks (promise_all sched m items))
                 /\ Forall2 (unknown_dish_task m) items
                            (tasks (promise_all sched m items))).
  { unfold promise_all. rewrite <- run_app.
    apply (run_invariant (fun h =>
             based_on (fun _ _ => True) m h
             /\ Forall (asks (fun _ => True)) (tasks h)
             /\ Forall2 (unknown_dish_task m) items (tasks h))).
    - intros i h (Hb & Hq & Hu).
      destruct (based_on_step (fun _ _ => True) (fun _ => True) m
                  (fun _ _ _ _ _ _ => I) (fun _ _ _ _ _ => I) i h (conj Hb Hq))
        as [Hb' Hq'].
      split; [done|]. split; [done|]. by apply unknown_dish_step.
    - split; [|split]; cbn.
      + split; [done|]. split; [eauto|]. apply Forall_fmap, Forall_true. done.
      + apply Forall_fmap, Forall_true. done.
      + apply Forall2_fmap_r, Forall_Forall2_diag, Forall_true.
        intros x _. by left. }
  destruct Hinv as (_ & _ & Hu).
  apply list_elem_of_lookup in Hin as [j Ej].
  destruct (Forall2_lookup_l _ _ _ _ _ Hu Ej) as (t & Et & Ht).
  pose proof (Forall_lookup_1 _ _ _ _ (promise_all_returned sched m items) Et) as Rt.
  destruct (Ht Hnone) as [->|[e ->]]; [discriminate|].
  assert (Hc : Some e ∈ omap reported (tasks (promise_all sched m items))).
  { apply list_elem_of_omap. exists (Bailed e). split; [|done].
    by eapply list_elem_of_lookup_2. }
  rewrite <- (inv_calls _ _ _ (hook_inv_promise_all m items sched)), Hnil in Hc.
  by apply not_elem_of_nil in Hc.
Qed.

(** X3. A new order with a line item whose dish is not in the collection (or
    that names no dish) is never stored, whatever the other line items and
    however the callbacks interleave: the save does not succeed and the order
    collection stays as it was. *)
Theorem unknown_dish_never_stored (zone : TimeZone) (now : Z) (sched : list nat)
    (isMod : bool) (this : Order) (s : Store) (item : LineItem) :
  item ∈ dishes this ->
  findById (dishStore s) (dish item) = None ->
  (forall o, fst (save zone now sched true isMod this s) <> Saved o)
  /\ orderStore (snd (save zone now sched true isMod this s)) = orderStore s.
Proof.
  intros Hin Hnone.
  pose proof (unknown_dish_bails sched (dishStore s) (dishes this) item Hin Hnone)
    as Hcalls.
  destruct (validate zone now this) as [|p ps] eqn:Hv.
  - destruct (save_new_result zone now sched isMod this s Hv)
      as [(Hc & _)|(e & cs & _ & ->)]; [done|].
    split; [discriminate|done].
  - unfold save. rewrite Hv. split; [discriminate|done].
Qed.

(** ** Callbacks in turn: what is written off is what was reserved *)

Lemma taken_app (id : ObjectId) (l1 l2 : list SaveEvent) :
  taken id (l1 ++ l2) = taken id l1 + taken id l2.
Proof. induction l1 as [|e l1 IH]; cbn; [done|]. rewrite IH. lia. Qed.

Lemma one_by_one_conserves (id : ObjectId) (items : list LineItem) :
  forall (pre : list Task) (m : gmap ObjectId Dish) (tot : Number)
         (cs : list (option HookError)) (sv : list SaveEvent),
    let h := run (flat_map (fun i => [i; i]) (seq (length pre) (length items)))
                 {| db := m; tasks := pre ++ map AwaitFind items;
                    total := tot; calls := cs; saves := sv |} in
    stock (db h) id + taken id (saves h) = stock m id + taken id sv.
Proof.
  induction items as [|item items IH]; intros pre m tot cs sv; [done|].
  cbn [length seq flat_map app run fold_left map].
  change (fold_left (fun h i => step i h) ?l ?h) with (run l h).
  rewrite step_twice_alone.
  destruct (reservation m item) as [[k d]|] eqn:Hres.
  - specialize (IH (pre ++ [Fulfilled item d]) (<[k := d]> m)
                   (fadd tot (fmul (price d) (of_Z (quantity item)))) cs
                   (sv ++ [{| saved_dish := k; saved_quantity := quantity item;
                              saved_inventory := inventory d |}])).
    rewrite length_app, Nat.add_1_r in IH. cbn [length] in IH.
    rewrite <- app_assoc in IH. cbn [app] in IH. cbn zeta in IH. rewrite IH.
    rewrite taken_app. cbn [taken saved_dish saved_quantity].
    unfold reservation in Hres.
    destruct (findById m (dish item)) as [[k' d0]|] eqn:F; [|discriminate].
    apply findById_Some in F as [_ Fm].
    destruct (inventory d0 <? quantity item); [discriminate|].
    injection Hres as <- <-. unfold stock.
    destruct (N.eqb_spec k' id) as [->|Hne].
    + rewrite lookup_insert_eq, Fm. cbn. lia.
    + rewrite lookup_insert_ne by done. lia.
  - specialize (IH (pre ++ [Bailed (failure m item)]) m tot
                   (cs ++ [Some (failure m item)]) sv).
    rewrite length_app, Nat.add_1_r in IH. cbn [length] in IH.
    rewrite <- app_assoc in IH. cbn [app] in IH. exact IH.
Qed.

(** X4. When the callbacks run one after the other, the units missing from
    a dish after the hook are exactly the units its writes took: inventory
    after = inventory before - the sum of the quantities written off that
    dish, repeated line items on one dish included. *)
Theorem in_turn_stock_conserved (m : gmap ObjectId Dish) (items : list LineItem)
    (id : ObjectId) :
  stock (db (promise_all [] m items)) id
  = stock m id - taken id (saves (promise_all [] m items)).
Proof.
  unfold promise_all, one_by_one. cbn [run fold_left]. unfold start. cbn [tasks].
  rewrite length_map.
  pose proof (one_by_one_conserves id items [] m (of_Z 0) [] []) as H.
  cbn [length app taken] in H. cbn zeta in H. lia.
Qed.



Lemma save_never_raises_stock_witness :
  let this := new_Order utc 0 100%N (request [line dish_A 2; line dish_A 3] false) in
  inventory <$> dishStore (snd (save utc 0 (reads_then_writes 2) true false this shop))
                !! dish_A = Some 7
  /\ 7 <= 10.
Proof.
  intros this. split; [vm_compute; reflexivity|].
  apply (save_never_raises_stock utc 0 (reads_then_writes 2) true false this shop dish_A
           {| name := "A"; price := of_Z 10; inventory := 10 |}
           {| name := "A"; price := of_Z 10; inventory := 7 |}).
  - repeat constructor; vm_compute; discriminate.
  - vm_compute. reflexivity.
  - vm_compute. reflexivity.
Defined.

Lemma unknown_dish_never_stored_witness :
  let this := new_Order utc 0 100%N (request [line dish_A 2; line 9%N 1] false) in
  orderStore (snd (save utc 0 [] true false this shop)) = orderStore shop
  /\ fst (save utc 0 [] true false this shop) = HookFailed (DishNotFound (Some 9%N)).
Proof.
  intros this. split; [|vm_compute; reflexivity].
  apply (unknown_dish_never_stored utc 0 [] false this shop
           {| dish := Some 9%N; quantity := 1 |}).
  - vm_compute. apply list_elem_of_In. right. left. reflexivity.
  - vm_compute. reflexivity.
Defined.


(** * Properties of DataAccess *)

Lemma new_all_set (objects : list N) (i : N) :
  DataAccess.new_all objects (Some i) = (replicate (length objects) i, Some i).
Proof.
  induction objects as [|this rest IH]; [done|].
  cbn. rewrite IH. done.
Qed.

(** X7. The constructor is a singleton: every [new DataAccess()] returns
    the object of the first construction, and the static [instance] stays
    that object. *)
Theorem constructor_is_singleton :
  (forall this rest,
      DataAccess.new_all (this :: rest) None
      = (replicate (S (length rest)) this, Some this))
  /\ (forall objects i,
         DataAccess.new_all objects (Some i)
         = (replicate (length objects) i, Some i)).
Proof.
  split.
  - intros this rest. cbn. by rewrite new_all_set.
  - intros objects i. apply new_all_set.
Qed.

(** X8. [deleteById] on the order collection: an identifier that is not
    stored gives the 404 error and changes nothing; a stored one is removed,
    so that [findById] then gives the 404 error; every other order stays, and
    no dish inventory is given back. *)
Theorem deleteById_order {Pop View : Type} (shape : option Pop -> Order -> View)
    (id : ObjectId) (populateOptions : option Pop) (s : Store) :
  let r := DataAccess.deleteById (Order_findByIdAndDelete (shape None)) id s in
  (orderStore s !! id = None ->
   r = (Throw (AppError "No document found with that ID" 404), s))
  /\ (is_Some (orderStore s !! id) -> fst r = Ok tt)
  /\ dishStore (snd r) = dishStore s
  /\ (forall k, k <> id -> orderStore (snd r) !! k = orderStore s !! k)
  /\ fst (DataAccess.findById (Order_findById shape) id populateOptions (snd r))
     = Throw (AppError "No document found with that ID" 404).
Proof.
  unfold DataAccess.deleteById, DataAccess.findById, Order_findByIdAndDelete,
    Order_findById.
  destruct (orderStore s !! id) as [o|] eqn:E; cbn.
  - split; [discriminate|]. split; [done|]. split; [done|]. split.
    + intros k Hk. by rewrite lookup_delete_ne.
    + by rewrite lookup_delete_eq.
  - split.
    { intros _. f_equal. destruct s as [ds os]. cbn in *. f_equal.
      by apply delete_id. }
    split; [by intros [? ?]|]. split; [done|]. split.
    + intros k Hk. by rewrite lookup_delete_ne.
    + by rewrite lookup_delete_eq.
Qed.

(** X9. [updateById] on the order collection changes the stores only when
    it succeeds: after any error both collections are as before.  In every
    case the other orders are untouched and no order appears or disappears;
    with valid update data an unknown identifier gives the 404 error, and
    update data that fails a validator gives the validation error, whether
    the identifier is known or not. *)
Theorem updateById_changes_only_on_success (zone : TimeZone) (now : Z) (id : ObjectId)
    (u : OrderUpdate) (s : Store) :
  let r := updateById (Order_findByIdAndUpdate zone now) id u s in
  (forall e, fst r = Throw e -> snd r = s)
  /\ (forall k, k <> id -> orderStore (snd r) !! k = orderStore s !! k)
  /\ (orderStore (snd r) !! id = None <-> orderStore s !! id = None)
  /\ (validate_update zone now u = [] -> orderStore s !! id = None ->
      fst r = Throw (AppError "No document found with that ID" 404))
  /\ (validate_update zone now u <> [] ->
      fst r = Throw (ValidationError (validate_update zone now u))).
Proof.
  unfold updateById, Order_findByIdAndUpdate.
  destruct (validate_update zone now u) as [|p ps]; cbn.
  - destruct (orderStore s !! id) as [o|] eqn:E; cbn.
    + split; [discriminate|]. split.
      * intros k Hk. by rewrite lookup_insert_ne.
      * split; [|split; [discriminate|done]].
        rewrite lookup_insert_eq. split; discriminate.
    + split; [done|]. split; [done|]. split; [done|]. split; done.
  - split; [done|]. split; [done|]. split; [done|]. split; [discriminate|done].
Qed.

(** X10. [saveDocument] answers 400 and changes nothing when there is
    nothing to save or no [save] function; otherwise it calls [save] once and
    gives the saved document, or, when [save] fails, the 500 error whatever
    the error of [save] was.  So it only ever fails with one of its own two
    errors.  For an order document this hides both a validation failure and
    a hook failure behind the same 500, and the stores are left as [save]
    left them, dish writes of a failed hook included. *)
Theorem saveDocument_masks_errors :
  (forall (Opt E D St : Type) (options : Opt) (s : St),
      DataAccess.saveDocument (E := E) (D := D) DataAccess.NoDocument options s
      = (Throw (AppError "Invalid document or document does not have a save method"
                         400), s)
      /\ DataAccess.saveDocument (E := E) (D := D) DataAccess.NoSave options s
         = (Throw (AppError "Invalid document or document does not have a save method"
                            400), s)
      /\ (forall (sv : Opt -> St -> (E + D) * St) d s',
             sv options s = (inr d, s') ->
             DataAccess.saveDocument (DataAccess.Savable sv) options s = (Ok d, s'))
      /\ (forall (sv : Opt -> St -> (E + D) * St) e s',
             sv options s = (inl e, s') ->
             DataAccess.saveDocument (DataAccess.Savable sv) options s
             = (Throw (AppError "Failed to save the document" 500), s')))
  /\ (forall (Opt E D St : Type) (document : DataAccess.Document Opt E D St)
             (options : Opt) (s : St) (e : Exn),
         fst (DataAccess.saveDocument document options s) = Throw e ->
         e = AppError "Invalid document or document does not have a save method" 400
         \/ e = AppError "Failed to save the document" 500)
  /\ (forall zone now sched isNew isMod this s,
         let r0 := save zone now sched isNew isMod this s in
         let r := DataAccess.saveDocument
                    (Order_document zone now sched isNew isMod this) tt s in
         snd r = snd r0
         /\ fst r = match fst r0 with
                    | Saved o => Ok o
                    | _ => Throw (AppError "Failed to save the document" 500)
                    end).
Proof.
  split; [|split].
  - intros Opt E D St options s. split; [done|]. split; [done|]. split.
    + intros sv d s' H. cbn. by rewrite H.
    + intros sv e s' H. cbn. by rewrite H.
  - intros Opt E D St document options s e. destruct document as [| |sv]; cbn.
    + intros [= <-]. by left.
    + intros [= <-]. by left.
    + destruct (sv options s) as [[e'|d] s']; cbn; [|discriminate].
      intros [= <-]. by right.
  - intros zone now sched isNew isMod this s. cbn.
    destruct (save zone now sched isNew isMod this s) as [[o|ps|e] s']; done.
Qed.

(** * Properties of the auth controller *)

Lemma split_without_separator (sep : Ascii.ascii) (s : string) :
  has_char sep s = false -> split sep s = [s].
Proof.
  induction s as [|c s IH]; [done|]. cbn. intros H.
  apply orb_false_iff in H as [Hc Hs]. rewrite Hc, (IH Hs). done.
Qed.

Lemma prefix_append (p x : string) : String.prefix p (String.append p x) = true.
Proof.
  induction p as [|c p IH]; [by destruct x|].
  change (String.append (String.String c p) x)
    with (String.String c (String.append p x)).
  cbn. destruct (Ascii.ascii_dec c c); [exact IH|done].
Qed.

Lemma split_append (sep : Ascii.ascii) (a b : string) :
  has_char sep a = false ->
  split sep (String.append a (String.String sep b)) = a :: split sep b.
Proof.
  induction a as [|c a IH]; intros H.
  - change (String.append String.EmptyString (String.String sep b))
      with (String.String sep b).
    cbn. by rewrite Ascii.eqb_refl.
  - change (String.append (String.String c a) (String.String sep b))
      with (String.String c (String.append a (String.String sep b))).
    cbn in H. apply orb_false_iff in H as [Hc Ha].
    cbn. rewrite Hc, (IH Ha). done.
Qed.

Lemma startsWith_nonempty (s : string) : startsWith s "Bearer" = true -> truthy (Some s) = true.
Proof. by destruct s. Qed.

Lemma find_user_spec (env : AuthEnv) (id : JSValue) :
  find_user env id
  = match User_findById env id with
    | Throw e => Throw e
    | Ok None => Throw (AppError "No document found with that ID" 404)
    | Ok (Some u) => Ok (Some u)
    end.
Proof.
  unfold find_user, DataAccess.findById.
  by destruct (User_findById env id) as [[u|]|e].
Qed.

(** X11. The token [protect] uses.  A header ["Bearer <token>"] gives that
    token whatever the cookie holds.  A header that starts with ["Bearer"]
    and has no space gives no token and the cookie is not consulted: the
    request is refused as not logged in, even with a valid cookie. *)
Theorem bearer_header_decides_token :
  (forall token cookie b u l,
      has_char space token = false ->
      protect_token {| authorization := Some (String.append "Bearer " token);
                       cookies_jwt := cookie; body := b; req_user := u;
                       res_locals_user := l |}
      = Some token)
  /\ (forall env req header,
         authorization req = Some header ->
         startsWith header "Bearer" = true ->
         has_char space header = false ->
         protect env req
         = NextErr (AppError "You are not logged in! Please log in to get access."
                             401)).
Proof.
  split.
  - intros token cookie b u l Hno. unfold protect_token.
    cbn [authorization cookies_jwt default from_option id].
    assert (Hs : startsWith (String.append "Bearer " token) "Bearer" = true).
    { change (String.append "Bearer " token)
        with (String.append "Bearer" (String.String space token)).
      apply prefix_append. }
    rewrite Hs, (startsWith_nonempty _ Hs). cbn [andb].
    change (String.append "Bearer " token)
      with (String.append "Bearer" (String.String space token)).
    rewrite split_append by done.
    by rewrite (split_without_separator _ _ Hno).
  - intros env req header Hh Hs Hno. unfold protect, protect_token.
    rewrite Hh. cbn [default from_option id]. rewrite Hs, (startsWith_nonempty _ Hs).
    cbn [andb]. rewrite (split_without_separator _ _ Hno). done.
Qed.

(** X12. A token whose user is gone: [findById] throws its 404 error, so
    [protect] ends with that error and never reaches its own check; the
    answer "The user belonging to this token does no longer exist." is
    never given. *)
Theorem protect_missing_user (env : AuthEnv) (req : Request) :
  (forall decoded,
      truthy (protect_token req) = true ->
      verify env (protect_token req) = Ok decoded ->
      User_findById env (decoded_id decoded) = Ok None ->
      protect env req = Rejected (AppError "No document found with that ID" 404))
  /\ (forall message code,
         protect env req = NextErr (AppError message code) ->
         message <> "The user belonging to this token does no longer exist.").
Proof.
  unfold protect. split.
  - intros decoded Ht Hv Hu. rewrite Ht, Hv, find_user_spec, Hu. done.
  - intros message code.
    destruct (truthy (protect_token req)); cbn; [|by intros [= <- <-]].
    destruct (verify env (protect_token req)) as [decoded|e]; [|done].
    rewrite find_user_spec.
    destruct (User_findById env (decoded_id decoded)) as [[u|]|e]; [|done..].
    destruct (changedPasswordAfter env u (iat decoded)); [|done].
    by intros [= <- <-].
Qed.

Lemma includes_elem_of (roles : list string) (v : JSValue) :
  includes roles v = true <-> exists r, v = JString r /\ r ∈ roles.
Proof.
  destruct v as [| |b|n|r]; cbn; try (split; [discriminate|by intros (? & ? & ?)]).
  rewrite existsb_exists. split.
  - intros (x & Hx & He). apply String.eqb_eq in He as ->.
    exists x. split; [done|]. by apply list_elem_of_In.
  - intros (x & [= ->] & Hx). exists x. split; [by apply list_elem_of_In|].
    apply String.eqb_refl.
Qed.

(** X13. A route guarded by [protect] and then [restrictTo roles] lets a
    request through exactly when it carries a token that verifies, the
    token's user exists and has not changed the password since, and the
    user's role is one of [roles]; that user is then [req.user]. *)
Theorem guarded_route_reached (env : AuthEnv) (roles : list string)
    (req req' : Request) :
  and_then (protect env) (restrictTo roles) req = NextOk req'
  <-> exists token decoded u role,
        protect_token req = Some token
        /\ token <> String.EmptyString
        /\ verify env (Some token) = Ok decoded
        /\ User_findById env (decoded_id decoded) = Ok (Some u)
        /\ changedPasswordAfter env u (iat decoded) = false
        /\ get u "role" = JString role
        /\ role ∈ roles
        /\ req' = set_req_user (Some u) req.
Proof.
  unfold and_then, protect. split.
  - destruct (protect_token req) as [token|] eqn:Ht; cbn; [|discriminate].
    destruct (String.eqb_spec token "") as [->|Hne]; cbn; [discriminate|].
    destruct (verify env (Some token)) as [decoded|e] eqn:Hv; [|discriminate].
    rewrite find_user_spec.
    destruct (User_findById env (decoded_id decoded)) as [[u|]|e] eqn:Hu;
      [|discriminate..].
    destruct (changedPasswordAfter env u (iat decoded)) eqn:Hc; [discriminate|].
    unfold restrictTo. cbn.
    destruct (includes roles (get u "role")) eqn:Hi; cbn; [|discriminate].
    intros [= <-]. apply includes_elem_of in Hi as (role & Hr & Hin).
    exists token, decoded, u, role. done.
  - intros (token & decoded & u & role & Ht & Hne & Hv & Hu & Hc & Hr & Hin & ->).
    rewrite Ht. cbn. destruct (String.eqb_spec token "") as [->|_]; [done|]. cbn.
    rewrite Hv, find_user_spec, Hu, Hc. unfold restrictTo. cbn.
    assert (Hi : includes roles (get u "role") = true).
    { apply includes_elem_of. eauto. }
    by rewrite Hi.
Qed.

Lemma guarded_route_reached_witness :
  and_then (protect sample_env) (restrictTo ["admin"; "manager"])
           (bearer_request "Bearer good")
  = NextOk (set_req_user (Some admin_user) (bearer_request "Bearer good")).
Proof.
  apply (proj2 (guarded_route_reached sample_env ["admin"; "manager"]
                  (bearer_request "Bearer good")
                  (set_req_user (Some admin_user) (bearer_request "Bearer good")))).
  exists "good", {| decoded_id := JString "u1"; iat := 100 |}, admin_user, "admin".
  split; [reflexivity|]. split; [discriminate|]. split; [reflexivity|].
  split; [reflexivity|]. split; [reflexivity|]. split; [reflexivity|].
  split; [|reflexivity]. apply list_elem_of_In. left. reflexivity.
Defined.

(** X14. The two optional checks never fail a request: whatever the
    header, the cookie, the verifier and the user model do, both end in
    [next()] with no error.  [conditionalProtect] leaves the request as it is
    when there is no [Bearer] header; with one it sets [req.user], to the
    user the verified token names, and to null when the token does not verify,
    the lookup fails or there is no such user; it never asks whether the
    password changed since.  [isLoggedIn] sets [res.locals.user], and only
    that, exactly when the cookie's token verifies, names a user that exists
    and whose password has not changed since; otherwise the request is as it
    was. *)
Theorem optional_checks_never_fail (env : AuthEnv) (req : Request) :
  let bearer :=
    truthy (authorization req)
    && startsWith (default String.EmptyString (authorization req)) "Bearer" in
  let token := split space (default String.EmptyString (authorization req)) !! 1%nat in
  conditionalProtect env req
  = NextOk (if bearer
            then set_req_user
                   match verify env token with
                   | Ok decoded =>
                       match User_findById env (decoded_id decoded) with
                       | Ok (Some u) => Some u
                       | _ => None
                       end
                   | Throw _ => None
                   end req
            else req)
  /\ isLoggedIn env req
     = NextOk (if truthy (cookies_jwt req)
               then match verify env (cookies_jwt req) with
                    | Ok decoded =>
                        match User_findById env (decoded_id decoded) with
                        | Ok (Some u) =>
                            if changedPasswordAfter env u (iat decoded) then req
                            else set_res_locals_user u req
                        | _ => req
                        end
                    | Throw _ => req
                    end
               else req)
  /\ (forall changed,
         conditionalProtect
           {| verify := verify env; signToken := signToken env;
              User_findById := User_findById env; changedPasswordAfter := changed;
              nodeEnv := nodeEnv env; jwtCookieExpiresIn := jwtCookieExpiresIn env;
              Date_now := Date_now env |} req
         = conditionalProtect env req).
Proof.
  cbv zeta. split; [|split].
  - unfold conditionalProtect.
    destruct (truthy (authorization req) && _); [|done].
    destruct (verify env _) as [decoded|e]; [|done].
    rewrite find_user_spec.
    by destruct (User_findById env (decoded_id decoded)) as [[u|]|e].
  - unfold isLoggedIn.
    destruct (truthy (cookies_jwt req)); [|done].
    destruct (verify env (cookies_jwt req)) as [decoded|e]; [|done].
    rewrite find_user_spec.
    destruct (User_findById env (decoded_id decoded)) as [[u|]|e]; [|done..].
    by destruct (changedPasswordAfter env u (iat decoded)).
  - intros changed. unfold conditionalProtect. cbn [verify].
    destruct (truthy (authorization req) && _); [|done].
    destruct (verify env _) as [decoded|e]; [|done].
    by rewrite !find_user_spec.
Qed.

(** X15. [login] as the repository has it.  Without an email or a password
    it answers 400.  With both, it calls [dataAccess.findByEmail], which the
    [DataAccess] class does not define: the call throws a TypeError, so
    [login] never sends a token and never gives its 401 answer, whatever the
    body holds. *)
Theorem login_outcomes (compare : JSValue -> JSValue -> Result bool) (env : AuthEnv)
    (req : Request) :
  let email := get (body req) "email" in
  let password := get (body req) "password" in
  login (DataAccess.findByEmail "User") compare env req
  = (if ToBoolean email && ToBoolean password
     then Rejected (ModelError "TypeError: dataAccess.findByEmail is not a function")
     else NextErr (AppError "Please provide email and password!" 400))
  /\ (forall res, login (DataAccess.findByEmail "User") compare env req <> Responded res)
  /\ (forall message,
         login (DataAccess.findByEmail "User") compare env req
         <> NextErr (AppError message 401)).
Proof.
  cbv zeta. unfold login, DataAccess.findByEmail.
  destruct (ToBoolean (get (body req) "email")),
    (ToBoolean (get (body req) "password")); cbn; done.
Qed.

Lemma get_insert_ne (m : gmap string JSValue) (k k' : string) (v : JSValue) :
  k <> k' -> get (<[k := v]> m) k' = get m k'.
Proof. intros H. unfold get. by rewrite lookup_insert_ne. Qed.

(** X16. [signup] hands the model only [name], [email], [password] and
    [passwordConfirm]: any other path of the body, a role for instance,
    changes nothing. *)
Theorem signup_ignores_other_paths
    (models : string -> option (gmap string JSValue -> Result (gmap string JSValue)))
    (env : AuthEnv) (req : Request) (key : string) (v : JSValue) :
  key <> "name" -> key <> "email" -> key <> "password" ->
  key <> "passwordConfirm" ->
  signup models env (set_body (<[key := v]> (body req)) req)
  = signup models env req.
Proof.
  intros H1 H2 H3 H4. unfold signup, signup_data. cbn [body set_body].
  by rewrite !get_insert_ne.
Qed.

Lemma signup_ignores_other_paths_witness :
  let req := {| authorization := None; cookies_jwt := None;
                body := <["name" := JString "bob"]> ∅;
                req_user := None; res_locals_user := None |} in
  signup plain_models sample_env
         (set_body (<["role" := JString "admin"]> (body req)) req)
  = signup plain_models sample_env req.
Proof.
  apply (signup_ignores_other_paths plain_models sample_env _ "role" (JString "admin"));
    discriminate.
Defined.

(** X17. A response built by [createSendToken] never carries the password:
    [data.user.password] is undefined whatever the user held, the other
    paths are as they were, the token of the body is the cookie's value, the
    cookie is [httpOnly], and it is [secure] exactly in production.  So the
    answers of [signup] (status 201) and [login] (status 200) carry no
    password, not even an empty one. *)
Theorem responses_carry_no_password (env : AuthEnv) :
  (forall u statusCode,
      exists sent cookie,
        json_user (createSendToken env u statusCode) = Some sent
        /\ get sent "password" = JUndefined
        /\ (forall key, key <> "password" -> sent !! key = u !! key)
        /\ res_cookie (createSendToken env u statusCode) = Some cookie
        /\ json_token (createSendToken env u statusCode) = Some (cookie_value cookie)
        /\ cookie_httpOnly cookie = true
        /\ (cookie_secure cookie = true <-> nodeEnv env = "production")
        /\ res_status (createSendToken env u statusCode) = statusCode)
  /\ (forall models req res,
         signup models env req = Responded res ->
         res_status res = 201
         /\ exists sent, json_user res = Some sent /\ get sent "password" = JUndefined)
  /\ (forall findByEmail compare req res,
         login findByEmail compare env req = Responded res ->
         res_status res = 200
         /\ exists sent, json_user res = Some sent /\ get sent "password" = JUndefined).
Proof.
  assert (Hget : forall u : gmap string JSValue,
            get (<["password" := JUndefined]> u) "password" = JUndefined).
  { intros u. unfold get. by rewrite lookup_insert_eq. }
  split; [|split].
  - intros u statusCode. eexists _, _. cbn.
    split; [done|]. split; [apply Hget|]. split.
    { intros key Hk. by rewrite lookup_insert_ne. }
    split; [done|]. split; [done|]. split; [done|]. split; [|done].
    apply String.eqb_eq.
  - intros models req res. unfold signup.
    destruct (create models "User" (signup_data (body req))) as [u|e]; [|discriminate].
    intros [= <-]. cbn. split; [done|]. eauto.
  - intros findByEmail compare req res. unfold login.
    destruct (negb _ || negb _); [discriminate|].
    destruct (findByEmail _) as [u|e]; [|discriminate].
    destruct (is_absent u || _); [discriminate|].
    destruct (compare _ _) as [[|]|e]; cbn; [|discriminate..].
    intros [= <-]. cbn. split; [done|]. eauto.
Qed.
